(** * obsidian-task-archiver: the archiving orchestrator

    A shallow embedding of [src/features/Archiver.ts] and of the parts of
    the document model it drives, followed by the properties of the
    orchestrator that the specification states. *)

From Stdlib Require Import ZArith Ascii String DecimalString Lia.
From stdpp Require Import base option list strings gmap.

Local Open Scope string_scope.
Local Open Scope Z_scope.
Local Open Scope list_scope.

Set Warnings "-register-all".

(** ** JavaScript strings

    A string is a sequence of code units.  The embedding keeps the code
    units below 256, which is the range of [ascii]. *)

Module JsString.

(** [s.startsWith(p)] *)
Fixpoint startsWith (p s : string) : bool :=
  match p, s with
  | EmptyString, _ => true
  | String a p', String b s' => if Ascii.eqb a b then startsWith p' s' else false
  | String _ _, EmptyString => false
  end.

Fixpoint drop (n : nat) (s : string) : string :=
  match n, s with
  | O, _ => s
  | S n', String _ s' => drop n' s'
  | S _, EmptyString => EmptyString
  end.

(** [s.includes(sub)] *)
Fixpoint includes (s sub : string) : bool :=
  if startsWith sub s then true
  else match s with
       | EmptyString => false
       | String _ s' => includes s' sub
       end.

(** [s.replace(pat, rep)] for a string pattern and a replacement without
    [$] sequences: only the leftmost occurrence is replaced. *)
Fixpoint replace (s pat rep : string) : string :=
  if startsWith pat s then rep +:+ drop (String.length pat) s
  else match s with
       | EmptyString => EmptyString
       | String c s' => String c (replace s' pat rep)
       end.

(** The characters that [.] does not match in a regular expression
    (line feed and carriage return, in the range of [ascii]). *)
Definition isLineTerminator (c : ascii) : bool :=
  Ascii.eqb c "010"%char || Ascii.eqb c "013"%char.

(** [s.split(sep)] for a one-character separator. *)
Fixpoint split (sep : ascii) (s : string) : list string :=
  match s with
  | EmptyString => [EmptyString]
  | String c s' =>
      if Ascii.eqb c sep then EmptyString :: split sep s'
      else match split sep s' with
           | [] => [String c EmptyString]
           | w :: ws => String c w :: ws
           end
  end.

(** [xs.join(sep)] *)
Fixpoint join (sep : string) (xs : list string) : string :=
  match xs with
  | [] => EmptyString
  | [x] => x
  | x :: xs' => x +:+ sep +:+ join sep xs'
  end.

(** The template literal [`${n}`] of a non-negative integer. *)
Definition ofNat (n : nat) : string :=
  NilEmpty.string_of_uint (Nat.to_uint n).

End JsString.

(** ** Document model *)

(** Modelled from the spec: [model/Block.ts] is not among the sources.  A
    Block has a text and an ordered list of child Blocks; the RootBlock is
    the container without text. *)
Inductive Block : Type :=
  mkBlock { block_text : string; block_children : list Block }.

Definition RootBlock : Block := mkBlock "" [].

(** Modelled from the spec: [model/Section.ts] is not among the sources.  A
    Section has the heading text after the marker, the heading depth, the
    blocks directly under the heading and the sub-headings. *)
Inductive Section : Type :=
  mkSection {
      sec_text : string;
      tokenLevel : Z;
      blockContent : Block;
      sec_children : list Section
    }.

(** An induction principle that reaches the sub-headings. *)
Fixpoint Section_tree_ind (P : Section -> Prop)
  (step : forall t l b cs, Forall P cs -> P (mkSection t l b cs))
  (s : Section) : P s :=
  match s with
  | mkSection t l b cs =>
      step t l b cs
        ((fix all (cs : list Section) : Forall P cs :=
            match cs with
            | [] => @List.Forall_nil _ P
            | c :: cs' => @List.Forall_cons _ P c cs' (Section_tree_ind P step c) (all cs')
            end) cs)
  end.

(** A Section of a tree is addressed by the child indices that lead to it. *)
Definition Path : Type := list nat.

Fixpoint sectionAt (p : Path) (s : Section) : option Section :=
  match p with
  | [] => Some s
  | i :: p' =>
      match sec_children s !! i with
      | Some c => sectionAt p' c
      | None => None
      end
  end.

(** In-place mutation of the Section at a path. *)
Fixpoint updateAt (p : Path) (f : Section -> Section) (s : Section) : Section :=
  match p with
  | [] => f s
  | i :: p' =>
      mkSection (sec_text s) (tokenLevel s) (blockContent s)
        (alter (updateAt p' f) i (sec_children s))
  end.

(** Modelled from the spec: [Section.appendChild] is not among the sources;
    the new Section becomes the last sub-heading. *)
Definition appendChild (s child : Section) : Section :=
  mkSection (sec_text s) (tokenLevel s) (blockContent s) (sec_children s ++ [child]).

(** Modelled from the spec: [Section.recalculateTokenLevels] is not among
    the sources.  The spec has the level of the whole moved sub-tree
    shifted by one delta, the one that brings its top to the new level. *)
Fixpoint shiftTokenLevels (delta : Z) (s : Section) : Section :=
  mkSection (sec_text s) (tokenLevel s + delta) (blockContent s)
    (map (shiftTokenLevels delta) (sec_children s)).

(** Modelled from the spec: the delta is the one that brings the top of
    the sub-tree to [newLevel]. *)
Definition recalculateTokenLevels (s : Section) (newLevel : Z) : Section :=
  shiftTokenLevels (newLevel - tokenLevel s) s.

(** The first hit among the children, each searched in turn; the index of
    the child is put in front of the path found in it. *)
Definition searchFrom {A B} (search : A -> option (Path * B))
  : nat -> list A -> option (Path * B) :=
  fix go (i : nat) (cs : list A) : option (Path * B) :=
    match cs with
    | [] => None
    | c :: cs' =>
        match search c with
        | Some (p, found) => Some (i :: p, found)
        | None => go (S i) cs'
        end
    end.

(** Modelled from the spec: [findSectionRecursively] of [util/Util.ts] is
    not among the sources.  The search is recursive and returns the first
    Section, in document order, that the predicate accepts (here with its
    place in the tree, which stands for the reference that JavaScript
    returns). *)
Fixpoint findSectionRecursively (s : Section) (cb : Section -> bool)
  : option (Path * Section) :=
  if cb s then Some ([], s)
  else searchFrom (fun c => findSectionRecursively c cb) O (sec_children s).

Definition collectFrom {A B} (collect : A -> list (Path * B))
  : nat -> list A -> list (Path * B) :=
  fix go (i : nat) (cs : list A) : list (Path * B) :=
    match cs with
    | [] => []
    | c :: cs' => map (fun '(p, x) => (i :: p, x)) (collect c) ++ go (S i) cs'
    end.

(** The Sections of a tree in document order, each with its path. *)
Fixpoint preorder (s : Section) : list (Path * Section) :=
  ([], s) :: collectFrom preorder O (sec_children s).

(** ** Tree extraction *)

Definition BlockFilter : Type := Block -> bool.
Definition SectionFilter : Type := Section -> bool.

Record TreeFilter : Type :=
  mkTreeFilter { blockFilter : BlockFilter; sectionFilter : SectionFilter }.

(** An extractor mutates the root it is given: it returns the extracted
    blocks together with the root as it is left. *)
Definition BlockExtractor : Type := Block -> BlockFilter -> list Block * Block.

(** Modelled from the spec: [shallowExtractBlocks] is not among the
    sources.  Only the top-level blocks are tested; a matching block
    leaves with all its children. *)
Definition shallowExtractBlocks : BlockExtractor :=
  fun root filter =>
    (List.filter filter (block_children root),
     mkBlock (block_text root)
       (List.filter (fun b => negb (filter b)) (block_children root))).

(** Modelled from the spec: [deepExtractBlocks] is not among the sources.
    Blocks are tested at every depth, in document order; a matching block
    leaves whole, a block that does not match stays and is searched. *)
Fixpoint deepExtractBlocks (root : Block) (filter : BlockFilter) : list Block * Block :=
  let '(extracted, kept) :=
    (fix each (bs : list Block) : list Block * list Block :=
       match bs with
       | [] => ([], [])
       | b :: bs' =>
           let '(ex, keep) := each bs' in
           if filter b then (b :: ex, keep)
           else
             let '(exb, b') := deepExtractBlocks b filter in
             (exb ++ ex, b' :: keep)
       end) (block_children root) in
  (extracted, mkBlock (block_text root) kept).

(** Modelled from the spec: [extractBlocksRecursively] is not among the
    sources.  Blocks are taken only from Sections that the section filter
    accepts, a Section's own blocks before those of its sub-headings. *)
Fixpoint extractBlocksRecursively (root : Section) (filter : TreeFilter)
  (extractor : BlockExtractor) : list Block * Section :=
  if sectionFilter filter root then
    let '(own, content) := extractor (blockContent root) (blockFilter filter) in
    let '(deeper, children) :=
      (fix each (cs : list Section) : list Block * list Section :=
         match cs with
         | [] => ([], [])
         | c :: cs' =>
             let '(exc, c') := extractBlocksRecursively c filter extractor in
             let '(ex, keep) := each cs' in
             (exc ++ ex, c' :: keep)
         end) (sec_children root) in
    (own ++ deeper, mkSection (sec_text root) (tokenLevel root) content children)
  else ([], root).

(** ** Settings *)

Module Rule.
(** Modelled from the spec: the declaration of [Rule] in [Settings.ts] is
    not among the sources; [statuses] is a string, one character for each
    status marker. *)
Record t : Type :=
  mk {
      statuses : string;
      archiveToSeparateFile : bool;
      defaultArchiveFileName : string;
      dateFormat : string
    }.
End Rule.

Record BlockWithRule : Type :=
  mkBlockWithRule { task : Block; rule : Rule.t }.

Module Settings.
(** Modelled from the spec: [Settings.ts] is not among the sources; the
    fields are the ones the orchestrator reads.  The indentation settings
    are only handed on to [buildIndentation]. *)
Record t {IndentationSettings : Type} : Type :=
  mk {
      archiveToSeparateFile : bool;
      defaultArchiveFileName : string;
      dateFormat : string;
      additionalMetadataBeforeArchiving_dateFormat : string;
      rules : list Rule.t;
      archiveUnderHeading : bool;
      archiveHeading : string;
      archiveHeadingDepth : Z;
      addNewlinesAroundHeadings : bool;
      indentationSettings : IndentationSettings
    }.
Arguments t : clear implicits.
End Settings.

(** ** The host: editor and vault

    The editor and the file storage are outside the program.  Their calls
    are the operations below; what they do is a parameter of the
    development. *)

Record Position : Type := mkPosition { line : nat; ch : nat }.

Definition Range : Type := (Position * Position)%type.

Record TFile : Type := mkTFile { path : string }.

Inductive TAbstractFile : Type :=
| IsTFile (file : TFile)
| IsTFolder (path : string).

(** The two implementations of [ActiveFile]. *)
Inductive ActiveFile : Type :=
| EditorFile
| DiskFile (file : TFile).

Inductive Error : Type :=
| TypeError (message : string)
| ThrownError (message : string)
| HostError (message : string).

Inductive Result (A : Type) : Type :=
| Ok (a : A)
| Err (e : Error).

Arguments Ok {A} a.
Arguments Err {A} e.

Definition isOk {A} (r : Result A) : bool :=
  match r with Ok _ => true | Err _ => false end.

Inductive Op : Type -> Type :=
| readLines (file : ActiveFile) : Op (list string)
| writeLines (file : ActiveFile) (lines : list string) : Op unit
| getAbstractFileByPath (path : string) : Op (option TAbstractFile)
| createFolder (path : string) : Op unit
| create (path data : string) : Op TFile
| detectListItemUnderCursor : Op (option Range)
| detectHeadingUnderCursor : Op (option Range)
| getRange (range : Range) : Op string
| replaceRange (replacement : string) (range : Range) : Op unit
| setCursor (pos : Position) : Op unit.

(** What an observer of the host sees: the calls, in the order they are
    made, and whether each one succeeded. *)
Inductive Event : Type :=
| Performed {X : Type} (op : Op X) (ok : bool).

(** ** Asynchronous procedures

    The body of an [async] function: it returns, throws, calls the host
    and goes on at once ([Call]), or calls the host and waits for the
    promise ([Await]).  No procedure of the program catches an error. *)
Inductive Proc (A : Type) : Type :=
| Ret (a : A)
| Throw (e : Error)
| Call {X : Type} (op : Op X) (k : X -> Proc A)
| Await {X : Type} (op : Op X) (k : X -> Proc A).

Arguments Ret {A} a.
Arguments Throw {A} e.
Arguments Call {A X} op k.
Arguments Await {A X} op k.

Fixpoint Proc_bind {A B : Type} (p : Proc A) (f : A -> Proc B) : Proc B :=
  match p with
  | Ret a => f a
  | Throw e => Throw e
  | Call op k => Call op (fun x => Proc_bind (k x) f)
  | Await op k => Await op (fun x => Proc_bind (k x) f)
  end.

Declare Scope proc_scope.
Delimit Scope proc_scope with proc.
Bind Scope proc_scope with Proc.
Notation "x <- p ;; k" := (Proc_bind p (fun x => k))
  (at level 100, p at next level, right associativity) : proc_scope.

Definition call {X} (op : Op X) : Proc X := Call op Ret.
Definition await {X} (op : Op X) : Proc X := Await op Ret.

Definition settled {A} (p : Proc A) : bool :=
  match p with
  | Ret _ | Throw _ => true
  | Call _ _ | Await _ _ => false
  end.

Definition rejection {A} (p : Proc A) : option Error :=
  match p with
  | Throw e => Some e
  | _ => None
  end.

Section Semantics.

Variable World : Type.
Variable perform : forall X : Type, Op X -> World -> Result X * World.

(** The state of a run: the host and the calls made so far. *)
Definition St : Type := (World * list Event)%type.

Definition exec {X} (op : Op X) (s : St) : Result X * St :=
  let '(r, w) := perform X op (fst s) in
  (r, (w, snd s ++ [Performed op (isOk r)])).

(** A procedure run alone, from its first statement to its end. *)
Fixpoint run {A} (p : Proc A) (s : St) : Result A * St :=
  match p with
  | Ret a => (Ok a, s)
  | Throw e => (Err e, s)
  | Call op k | Await op k =>
      let '(r, s') := exec op s in
      match r with
      | Ok x => run (k x) s'
      | Err e => (Err e, s')
      end
  end.

(** A procedure runs without interruption up to its next [await]. *)
Fixpoint advance {A} (p : Proc A) (s : St) : Proc A * St :=
  match p with
  | Call op k =>
      let '(r, s') := exec op s in
      match r with
      | Ok x => advance (k x) s'
      | Err e => (Throw e, s')
      end
  | _ => (p, s)
  end.

(** The awaited promise settles: the procedure goes on to its next
    [await]. *)
Definition resume {A} (p : Proc A) (s : St) : Proc A * St :=
  match p with
  | Await op k =>
      let '(r, s') := exec op s in
      match r with
      | Ok x => advance (k x) s'
      | Err e => (Throw e, s')
      end
  | _ => (p, s)
  end.

(** *** [Promise.all] over procedures started one after the other

    [items.map(async ...)] calls every callback, each of which runs to
    its first [await]; the event loop then resumes the jobs in the order
    in which the host settles their promises, the [schedule].  The jobs
    that the schedule leaves unfinished are run to their end, in order.
    [Promise.all] rejects with the first rejection; it cancels nothing. *)

Definition noteRejection (first : option Error) (p : Proc unit) : option Error :=
  match first with
  | Some e => Some e
  | None => rejection p
  end.

Fixpoint startAll (jobs : list (Proc unit)) (first : option Error) (s : St)
  : list (Proc unit) * option Error * St :=
  match jobs with
  | [] => ([], first, s)
  | job :: rest =>
      let '(job', s1) := advance job s in
      let '(rest', first', s2) := startAll rest (noteRejection first job') s1 in
      (job' :: rest', first', s2)
  end.

Fixpoint eventLoop (schedule : list nat) (jobs : list (Proc unit))
  (first : option Error) (s : St) : list (Proc unit) * option Error * St :=
  match schedule with
  | [] => (jobs, first, s)
  | i :: schedule' =>
      match jobs !! i with
      | Some job =>
          let '(job', s') := resume job s in
          eventLoop schedule' (<[i := job']> jobs) (noteRejection first job') s'
      | None => eventLoop schedule' jobs first s
      end
  end.

Definition finish (job : Proc unit) (s : St) : Proc unit * St :=
  let '(r, s') := run job s in
  (match r with Ok _ => Ret tt | Err e => Throw e end, s').

Fixpoint drain (jobs : list (Proc unit)) (first : option Error) (s : St)
  : list (Proc unit) * option Error * St :=
  match jobs with
  | [] => ([], first, s)
  | job :: rest =>
      let '(job', s1) := finish job s in
      let '(rest', first', s2) := drain rest (noteRejection first job') s1 in
      (job' :: rest', first', s2)
  end.

(** The jobs as they end, the first rejection and the final state. *)
Definition runAll (schedule : list nat) (jobs : list (Proc unit)) (s : St)
  : list (Proc unit) * option Error * St :=
  let '(started, first1, s1) := startAll jobs None s in
  let '(looped, first2, s2) := eventLoop schedule started first1 s1 in
  drain looped first2 s2.

Definition promiseAll (schedule : list nat) (jobs : list (Proc unit)) (s : St)
  : Result unit * St :=
  let '(_, first, s') := runAll schedule jobs s in
  (match first with Some e => Err e | None => Ok tt end, s').

(** *** Operations of the orchestrator: state and errors *)

Definition M (A : Type) : Type := St -> Result A * St.

Definition M_ret {A} (a : A) : M A := fun s => (Ok a, s).

Definition M_bind {A B} (m : M A) (f : A -> M B) : M B :=
  fun s =>
    let '(r, s') := m s in
    match r with
    | Ok a => f a s'
    | Err e => (Err e, s')
    end.

Definition M_result {A} (r : Result A) : M A := fun s => (r, s).

End Semantics.

Arguments exec {World} perform {X} op s.
Arguments run {World} perform {A} p s.
Arguments advance {World} perform {A} p s.
Arguments resume {World} perform {A} p s.
Arguments startAll {World} perform jobs first s.
Arguments eventLoop {World} perform schedule jobs first s.
Arguments finish {World} perform job s.
Arguments drain {World} perform jobs first s.
Arguments runAll {World} perform schedule jobs s.
Arguments promiseAll {World} perform schedule jobs s.
Arguments M_ret {World A} a s.
Arguments M_bind {World A B} m f s.
Arguments M_result {World A} r s.

Declare Scope op_scope.
Delimit Scope op_scope with op.
Notation "x <- m ;; k" := (M_bind m (fun x => k))
  (at level 100, m at next level, right associativity) : op_scope.

(** ** lodash: [groupBy], [mapValues], [toPairs]

    [groupBy] builds an object whose keys are the archive paths.  The keys
    of an object are enumerated with the array indices first, in ascending
    order, then the other keys in the order of their creation. *)

Module Lodash.

Fixpoint addToGroup {V} (key : string) (v : V) (groups : list (string * list V))
  : list (string * list V) :=
  match groups with
  | [] => [(key, [v])]
  | (key', vs) :: rest =>
      if String.eqb key key' then (key', vs ++ [v]) :: rest
      else (key', vs) :: addToGroup key v rest
  end.

(** The groups in the order in which their keys are created. *)
Definition groupBy {V} (iteratee : V -> string) (collection : list V)
  : list (string * list V) :=
  fold_left (fun groups v => addToGroup (iteratee v) v groups) collection [].

Definition mapValues {V W} (f : V -> W) (object : list (string * V))
  : list (string * W) :=
  map (fun '(key, v) => (key, f v)) object.

Definition digit (c : ascii) : option N :=
  let n := N_of_ascii c in
  if ((48 <=? n) && (n <=? 57))%N then Some (n - 48)%N else None.

Fixpoint digits (acc : N) (s : string) : option N :=
  match s with
  | EmptyString => Some acc
  | String c s' =>
      match digit c with
      | Some d => digits (acc * 10 + d)%N s'
      | None => None
      end
  end.

(** A key is an array index when it is the canonical decimal form of an
    integer from 0 to 2^32 - 2. *)
Definition arrayIndex (key : string) : option N :=
  match key with
  | EmptyString => None
  | String "0" EmptyString => Some 0%N
  | String "0" _ => None
  | _ =>
      match digits 0%N key with
      | Some n => if (n <=? 4294967294)%N then Some n else None
      | None => None
      end
  end.

Fixpoint insertByIndex {V} (n : N) (entry : string * V)
  (sorted : list (N * (string * V))) : list (N * (string * V)) :=
  match sorted with
  | [] => [(n, entry)]
  | (m, e) :: rest =>
      if (n <? m)%N then (n, entry) :: sorted
      else (m, e) :: insertByIndex n entry rest
  end.

Fixpoint indexKeys {V} (object : list (string * V)) : list (N * (string * V)) :=
  match object with
  | [] => []
  | (key, v) :: rest =>
      match arrayIndex key with
      | Some n => insertByIndex n (key, v) (indexKeys rest)
      | None => indexKeys rest
      end
  end.

Definition toPairs {V} (object : list (string * V)) : list (string * V) :=
  map snd (indexKeys object)
    ++ List.filter
         (fun '(key, _) => match arrayIndex key with Some _ => false | None => true end)
         object.

End Lodash.

(** ** The [Archiver] class *)

Section ArchiverClass.

Context {IndentationSettings : Type}.

(** The collaborators that the constructor receives, and the functions
    that the class imports from modules that are not among the sources
    and that the spec does not define. *)
Record Archiver : Type :=
  mkArchiver {
      (* this.parser.parse *)
      parse : list string -> Section;
      (* this.dateTreeResolver.mergeNewBlocksWithDateTree: the root as it is left *)
      mergeNewBlocksWithDateTree : Block -> list Block -> Block;
      (* this.taskTester.doesTaskNeedArchiving *)
      doesTaskNeedArchiving : string -> bool;
      (* this.placeholderResolver.resolve *)
      resolve : string -> string -> string;
      (* this.textReplacementService.replaceText *)
      replaceText : Block -> Block;
      (* this.metadataService.appendMetadata *)
      appendMetadata : BlockWithRule -> BlockWithRule;
      settings : Settings.t IndentationSettings;
      (* this.archiveHeadingPattern.test; the constructor takes the pattern,
         by default buildHeadingPattern(settings.archiveHeading), which is
         not among the sources *)
      archiveHeadingPattern : string -> bool;
      (* util/Util: addNewlinesToSection, the Section as it is left *)
      addNewlinesToSection : Section -> Section;
      (* util/Util: buildIndentation *)
      buildIndentation : IndentationSettings -> string;
      (* Section.stringify *)
      stringify : Section -> string -> list string
    }.

Variable this : Archiver.

(* todo: this is out of place *)
Definition isArchive (line : string) : bool :=
  archiveHeadingPattern this line.

Definition taskFilter : TreeFilter :=
  {| blockFilter := fun block => doesTaskNeedArchiving this (block_text block);
     sectionFilter := fun section => negb (isArchive (sec_text section)) |}.

Definition completeTask (task : string) : string :=
  JsString.replace task "[ ]" "[x]".

Definition getDefaultRule : Rule.t :=
  {| Rule.archiveToSeparateFile := Settings.archiveToSeparateFile (settings this);
     Rule.defaultArchiveFileName := Settings.defaultArchiveFileName (settings this);
     Rule.dateFormat :=
       Settings.additionalMetadataBeforeArchiving_dateFormat (settings this);
     Rule.statuses := "" |}.

(** [text.match(/\[(.)]/)]: the character between the first pair of
    brackets that encloses exactly one character other than a line
    terminator; [None] is the [null] of JavaScript. *)
Fixpoint matchStatus (text : string) : option string :=
  match text with
  | EmptyString => None
  | String c rest =>
      match rest with
      | String d (String e _) =>
          if Ascii.eqb c "[" && negb (JsString.isLineTerminator d) && Ascii.eqb e "]"
          then Some (String d EmptyString)
          else matchStatus rest
      | _ => matchStatus rest
      end
  end.

(** Destructuring [null] throws. *)
Definition getTaskStatus (task : Block) : Result string :=
  match matchStatus (block_text task) with
  | Some taskStatus => Ok taskStatus
  | None => Err (TypeError "null is not iterable")
  end.

(** [rules.find((rule) => rule.statuses.includes(this.getTaskStatus(task)))] *)
Fixpoint findRule (rules : list Rule.t) (task : Block) : Result (option Rule.t) :=
  match rules with
  | [] => Ok None
  | rule :: rest =>
      match getTaskStatus task with
      | Err e => Err e
      | Ok taskStatus =>
          if JsString.includes (Rule.statuses rule) taskStatus then Ok (Some rule)
          else findRule rest task
      end
  end.

Definition withRule (task : Block) : Result BlockWithRule :=
  match findRule (Settings.rules (settings this)) task with
  | Err e => Err e
  | Ok (Some rule) => Ok {| task := task; rule := rule |}
  | Ok None => Ok {| task := task; rule := getDefaultRule |}
  end.

(** [tasks.map(f)] where [f] may throw. *)
Fixpoint mapResult {A B} (f : A -> Result B) (xs : list A) : Result (list B) :=
  match xs with
  | [] => Ok []
  | x :: xs' =>
      match f x with
      | Err e => Err e
      | Ok y =>
          match mapResult f xs' with
          | Err e => Err e
          | Ok ys => Ok (y :: ys)
          end
      end
  end.

Definition stringifyTree (tree : Section) : list string :=
  stringify this tree
    (buildIndentation this (Settings.indentationSettings (settings this))).

(** The callback mutates the tree; what it hands to its caller through
    captured variables is its result here. *)
Definition TreeEditorCallback (A : Type) : Type := Section -> Result (A * Section).

Definition editFileTree {A} (file : ActiveFile) (cb : TreeEditorCallback A) : Proc A :=
  (lines <- await (readLines file) ;;
   let tree := parse this lines in
   match cb tree with
   | Err e => Throw e
   | Ok (result, tree') =>
       _ <- await (writeLines file (stringifyTree tree')) ;;
       Ret result
   end)%proc.

Definition extractTasksFromActiveFile (file : ActiveFile) (extractor : BlockExtractor)
  : Proc (list Block) :=
  editFileTree file
    (fun root => Ok (extractBlocksRecursively root taskFilter extractor)).

Definition buildArchiveSection : Section :=
  mkSection (" " +:+ Settings.archiveHeading (settings this))
    (Settings.archiveHeadingDepth (settings this))
    RootBlock [].

(** The tree as it is left, the place of the archive Section in it and
    the archive Section itself. *)
Definition getArchiveSectionFromRoot (section : Section) : Section * Path * Section :=
  let shouldArchiveToRoot := negb (Settings.archiveUnderHeading (settings this)) in
  if Settings.archiveToSeparateFile (settings this) && shouldArchiveToRoot
  then (section, [], section)
  else
    let existingArchiveSection :=
      findSectionRecursively section
        (fun section => archiveHeadingPattern this (sec_text section)) in
    match existingArchiveSection with
    | Some (p, found) => (section, p, found)
    | None =>
        let section' :=
          if Settings.addNewlinesAroundHeadings (settings this)
          then addNewlinesToSection this section
          else section in
        let newArchiveSection := buildArchiveSection in
        (appendChild section' newArchiveSection,
         [length (sec_children section')],
         newArchiveSection)
    end.

Definition setBlockContent (content : Block) (s : Section) : Section :=
  mkSection (sec_text s) (tokenLevel s) content (sec_children s).

Definition archiveBlocksToRoot (tasks : list Block) (root : Section) : Section :=
  let '(root', p, archiveSection) := getArchiveSectionFromRoot root in
  updateAt p
    (fun s =>
       setBlockContent (mergeNewBlocksWithDateTree this (blockContent s) tasks) s)
    root'.

Definition dropRight {A} (xs : list A) : list A := removelast xs.

Definition getOrCreateFile (path : string) : Proc TFile :=
  (file <- call (getAbstractFileByPath path) ;;
   file <- match file with
           | Some file => Ret file
           | None =>
               let pathSeparator := "/" in
               let pathNodes := JsString.split "/" path in
               let pathContainsFolders := (1 <? length pathNodes)%nat in
               _ <- (if pathContainsFolders then
                       let folderPath :=
                         JsString.join pathSeparator (dropRight pathNodes) in
                       existingFolder <- call (getAbstractFileByPath folderPath) ;;
                       match existingFolder with
                       | Some _ => Ret tt
                       | None => await (createFolder folderPath)
                       end
                     else Ret tt) ;;
               file <- await (create path "") ;;
               Ret (IsTFile file)
           end ;;
   match file with
   | IsTFile file => Ret file
   | IsTFolder _ => Throw (ThrownError (path +:+ " is not a valid markdown file"))
   end)%proc.

Definition getDiskFile (path : string) : Proc ActiveFile :=
  (tFile <- getOrCreateFile (path +:+ ".md") ;;
   Ret (DiskFile tFile))%proc.

Definition getDiskFileByPathWithPlaceholders (path : string) : Proc ActiveFile :=
  getDiskFile (resolve this path (Settings.dateFormat (settings this))).

Definition getArchiveFile (activeFile : ActiveFile) : Proc ActiveFile :=
  if negb (Settings.archiveToSeparateFile (settings this)) then Ret activeFile
  else getDiskFileByPathWithPlaceholders (Settings.defaultArchiveFileName (settings this)).

(** The path under which a task is grouped. *)
Definition archivePathOf (rule : Rule.t) : string :=
  if Rule.archiveToSeparateFile rule
  then resolve this (Rule.defaultArchiveFileName rule) (Rule.dateFormat rule)
  else "current-file".

(** The pairs of an archive path and its tasks, as [toPairs] yields them. *)
Definition archiveGroups (tasks : list BlockWithRule) : list (string * list Block) :=
  let withText :=
    map (fun '(mkBlockWithRule task rule) =>
           {| task := replaceText this task; rule := rule |}) tasks in
  let withMetadata := map (fun taskWithRule => appendMetadata this taskWithRule) withText in
  let withPath :=
    map (fun '(mkBlockWithRule task rule) => (task, archivePathOf rule)) withMetadata in
  Lodash.toPairs
    (Lodash.mapValues (fun tasks => map fst tasks)
       (Lodash.groupBy snd withPath)).

(** The asynchronous callback that [archiveTasks] maps over the pairs. *)
Definition archiveGroup (activeFile : ActiveFile) (pair : string * list Block) : Proc unit :=
  let '(archivePath, tasks) := pair in
  (archiveFile <- (if String.eqb archivePath "current-file"
                   then Ret activeFile
                   else getDiskFile archivePath) ;;
   editFileTree archiveFile (fun tree => Ok (tt, archiveBlocksToRoot tasks tree)))%proc.

Definition archiveJobs (tasks : list BlockWithRule) (activeFile : ActiveFile)
  : list (Proc unit) :=
  map (archiveGroup activeFile) (archiveGroups tasks).

(** The callback of [archiveSection]; [None] is the [undefined] that
    [parsedHeadingRoot.children[0]] yields for a root without headings. *)
Definition appendToArchive (section : option Section) : TreeEditorCallback unit :=
  fun tree =>
    let '(tree', p, archiveSection) := getArchiveSectionFromRoot tree in
    let archiveHeadingLevel := tokenLevel archiveSection in
    match section with
    | None => Err (TypeError "section is undefined")
    | Some section =>
        let section' := recalculateTokenLevels section (archiveHeadingLevel + 1) in
        Ok (tt, updateAt p (fun s => appendChild s section') tree')
    end.

Definition archiveSection (activeFile : ActiveFile) (section : option Section) : Proc unit :=
  (archiveFile <- getArchiveFile activeFile ;;
   editFileTree archiveFile (appendToArchive section))%proc.

(** *** The public operations, on a host *)

Variable World : Type.
Variable perform : forall X : Type, Op X -> World -> Result X * World.

(** The order in which the host settles the promises of a batch. *)
Variable schedule : list nat.

Definition archiveTasks (tasks : list BlockWithRule) (activeFile : ActiveFile)
  : M World unit :=
  promiseAll perform schedule (archiveJobs tasks activeFile).

Definition isEmpty {A} (xs : list A) : bool :=
  match xs with [] => true | _ => false end.

Definition extractAndArchiveTasksInActiveFile (activeFile : ActiveFile)
  (extractor : BlockExtractor) : M World string :=
  (extracted <- run perform (extractTasksFromActiveFile activeFile extractor) ;;
   tasks <- M_result (mapResult withRule extracted) ;;
   _ <- archiveTasks tasks activeFile ;;
   M_ret (if isEmpty tasks then "No tasks to archive"
          else "Archived " +:+ JsString.ofNat (length tasks) +:+ " tasks"))%op.

Definition archiveShallowTasksInActiveFile (file : ActiveFile) : M World string :=
  extractAndArchiveTasksInActiveFile file shallowExtractBlocks.

Definition archiveDeepTasksInActiveFile (file : ActiveFile) : M World string :=
  extractAndArchiveTasksInActiveFile file deepExtractBlocks.

Definition deleteTasksInActiveFile (file : ActiveFile) : M World string :=
  (tasks <- run perform (extractTasksFromActiveFile file shallowExtractBlocks) ;;
   M_ret (if isEmpty tasks then "No tasks to delete"
          else "Deleted " +:+ JsString.ofNat (length tasks) +:+ " tasks"))%op.

Definition setBlockText (text : string) (b : Block) : Block :=
  mkBlock text (block_children b).

Definition archiveTaskUnderCursor : M World unit :=
  (thisTaskRange <- run perform (call detectListItemUnderCursor) ;;
   match thisTaskRange with
   | None => M_ret tt
   | Some thisTaskRange =>
       text <- run perform (call (getRange thisTaskRange)) ;;
       let thisTaskLines := JsString.split "010" text in
       _ <- run perform (call (replaceRange "" thisTaskRange)) ;;
       let parsedTaskRoot := parse this thisTaskLines in
       match block_children (blockContent parsedTaskRoot) with
       | [] => M_result (Err (TypeError "parsedTaskBlock is undefined"))
       | parsedTaskBlock :: _ =>
           (* todo: tidy up *)
           let parsedTaskBlock :=
             setBlockText (completeTask (block_text parsedTaskBlock)) parsedTaskBlock in
           let activeFile := EditorFile in
           _ <- archiveTasks [{| task := parsedTaskBlock; rule := getDefaultRule |}]
                  activeFile ;;
           let thisTaskStart := fst thisTaskRange in
           run perform (call (setCursor thisTaskStart))
       end
   end)%op.

Definition archiveHeadingUnderCursor : M World unit :=
  (thisHeadingRange <- run perform (call detectHeadingUnderCursor) ;;
   match thisHeadingRange with
   | None => M_ret tt
   | Some thisHeadingRange =>
       text <- run perform (call (getRange thisHeadingRange)) ;;
       let thisHeadingLines := JsString.split "010" text in
       _ <- run perform (call (replaceRange "" thisHeadingRange)) ;;
       let parsedHeadingRoot := parse this thisHeadingLines in
       let parsedHeading := head (sec_children parsedHeadingRoot) in
       let activeFile := EditorFile in
       run perform (archiveSection activeFile parsedHeading)
   end)%op.

End ArchiverClass.

Arguments Archiver : clear implicits.

(** ** A reference host

    A vault that is a finite map from paths to files and folders, some of
    whose files refuse to be written, and an editor that holds the lines of
    the active note.  The detection of the item or heading under the cursor
    is not modelled: the editor answers with the range it holds. *)

Module RefHost.

Inductive Entry : Type :=
| File (lines : list string)
| Folder.

Record World : Type :=
  mkWorld {
      editorLines : list string;
      cursor : Position;
      listItemUnderCursor : option Range;
      headingUnderCursor : option Range;
      vault : gmap string Entry;
      readOnly : list string
    }.

Definition setEditorLines (lines : list string) (w : World) : World :=
  mkWorld lines (cursor w) (listItemUnderCursor w) (headingUnderCursor w)
    (vault w) (readOnly w).

Definition setCursorPos (pos : Position) (w : World) : World :=
  mkWorld (editorLines w) pos (listItemUnderCursor w) (headingUnderCursor w)
    (vault w) (readOnly w).

Definition setVault (v : gmap string Entry) (w : World) : World :=
  mkWorld (editorLines w) (cursor w) (listItemUnderCursor w) (headingUnderCursor w)
    v (readOnly w).

(** The offset of a position in the text of the editor. *)
Fixpoint offset (lines : list string) (pos : Position) : nat :=
  match line pos, lines with
  | O, _ => ch pos
  | S n, l :: rest => String.length l + 1 + offset rest (mkPosition n (ch pos))
  | S _, [] => ch pos
  end.

Definition editorValue (w : World) : string :=
  JsString.join (String "010" EmptyString) (editorLines w).

Definition rangeText (w : World) (range : Range) : string :=
  let start := offset (editorLines w) (fst range) in
  let stop := offset (editorLines w) (snd range) in
  String.substring start (stop - start) (editorValue w).

Definition withoutRange (replacement : string) (range : Range) (w : World) : World :=
  let start := offset (editorLines w) (fst range) in
  let stop := offset (editorLines w) (snd range) in
  let value := editorValue w in
  setEditorLines
    (JsString.split "010"
       (String.substring 0 start value +:+ replacement +:+ JsString.drop stop value))
    w.

Definition isReadOnly (w : World) (path : string) : bool :=
  existsb (String.eqb path) (readOnly w).

Definition perform (X : Type) (op : Op X) (w : World) : Result X * World :=
  match op in Op X return Result X * World with
  | readLines EditorFile => (Ok (editorLines w), w)
  | readLines (DiskFile file) =>
      match vault w !! path file with
      | Some (File lines) => (Ok lines, w)
      | _ => (Err (HostError "file not found"), w)
      end
  | writeLines EditorFile lines => (Ok tt, setEditorLines lines w)
  | writeLines (DiskFile file) lines =>
      match vault w !! path file with
      | Some (File _) =>
          if isReadOnly w (path file) then (Err (HostError "file is read-only"), w)
          else (Ok tt, setVault (<[path file := File lines]> (vault w)) w)
      | _ => (Err (HostError "file not found"), w)
      end
  | getAbstractFileByPath p =>
      (Ok match vault w !! p with
          | Some (File _) => Some (IsTFile (mkTFile p))
          | Some Folder => Some (IsTFolder p)
          | None => None
          end, w)
  | createFolder p =>
      match vault w !! p with
      | Some _ => (Err (HostError "folder already exists"), w)
      | None => (Ok tt, setVault (<[p := Folder]> (vault w)) w)
      end
  | create p data =>
      match vault w !! p with
      | Some _ => (Err (HostError "file already exists"), w)
      | None =>
          (Ok (mkTFile p),
           setVault (<[p := File (JsString.split "010" data)]> (vault w)) w)
      end
  | detectListItemUnderCursor => (Ok (listItemUnderCursor w), w)
  | detectHeadingUnderCursor => (Ok (headingUnderCursor w), w)
  | getRange range => (Ok (rangeText w range), w)
  | replaceRange replacement range => (Ok tt, withoutRange replacement range w)
  | setCursor pos => (Ok tt, setCursorPos pos w)
  end.

End RefHost.

(** ** Collaborators for the examples

    A parser of headings and of list items nested one level deep, the
    serialisation that undoes it, and plain stand-ins for the services. *)

Module Double.

Fixpoint heading (s : string) : nat * string :=
  match s with
  | String "#" rest => let '(n, text) := heading rest in (S n, text)
  | _ => (O, s)
  end.

Fixpoint trimStart (s : string) : string :=
  match s with
  | String " " rest => trimStart rest
  | _ => s
  end.

Definition addBlock (b : Block) (root : Block) : Block :=
  mkBlock (block_text root) (block_children root ++ [b]).

(** A nested item goes under the last top-level item. *)
Definition addNested (b : Block) (root : Block) : Block :=
  match reverse (block_children root) with
  | [] => addBlock b root
  | parent :: before => mkBlock (block_text root) (reverse before ++ [addBlock b parent])
  end.

Definition inLastSection (f : Block -> Block) (root : Section) : Section :=
  match reverse (sec_children root) with
  | [] => mkSection (sec_text root) (tokenLevel root) (f (blockContent root)) []
  | s :: before =>
      mkSection (sec_text root) (tokenLevel root) (blockContent root)
        (reverse before
           ++ [mkSection (sec_text s) (tokenLevel s) (f (blockContent s)) (sec_children s)])
  end.

Definition parseLine (root : Section) (l : string) : Section :=
  match heading l with
  | (S n, text) => appendChild root (mkSection text (Z.of_nat (S n)) RootBlock [])
  | (O, _) =>
      if JsString.startsWith " " l
      then inLastSection (addNested (mkBlock (trimStart l) [])) root
      else inLastSection (addBlock (mkBlock l [])) root
  end.

Definition parseLines (lines : list string) : Section :=
  fold_left parseLine lines (mkSection "" 0 RootBlock []).

Fixpoint repeatString (n : nat) (s : string) : string :=
  match n with
  | O => EmptyString
  | S n' => s +:+ repeatString n' s
  end.

Fixpoint blockLines (indentation : string) (depth : nat) (b : Block) : list string :=
  (repeatString depth indentation +:+ block_text b)
    :: flat_map (blockLines indentation (S depth)) (block_children b).

Fixpoint stringifySection (s : Section) (indentation : string) : list string :=
  (if (tokenLevel s =? 0)%Z then []
   else [repeatString (Z.to_nat (tokenLevel s)) "#" +:+ sec_text s])
    ++ flat_map (blockLines indentation O) (block_children (blockContent s))
    ++ flat_map (fun c => stringifySection c indentation) (sec_children s).

(** Without a date tree, the new blocks are appended. *)
Definition append (root : Block) (tasks : list Block) : Block :=
  mkBlock (block_text root) (block_children root ++ tasks).

Definition settingsWith (rules : list Rule.t) : Settings.t string :=
  {| Settings.archiveToSeparateFile := false;
     Settings.defaultArchiveFileName := "Archive file";
     Settings.dateFormat := "YYYY-MM-DD";
     Settings.additionalMetadataBeforeArchiving_dateFormat := "YYYY-MM-DD";
     Settings.rules := rules;
     Settings.archiveUnderHeading := true;
     Settings.archiveHeading := "Archived";
     Settings.archiveHeadingDepth := 2;
     Settings.addNewlinesAroundHeadings := false;
     Settings.indentationSettings := "  " |}.

(** Testers: the items checked with [x], the items checked with any
    mark, and the items that open with a keyword instead of a checkbox. *)
Definition checked (text : string) : bool :=
  JsString.startsWith "- [x]" text.

Definition anyMark (text : string) : bool :=
  JsString.startsWith "- [" text && negb (JsString.startsWith "- [ ]" text).

Definition doneKeyword (text : string) : bool :=
  JsString.startsWith "- DONE " text.

Definition archiver (needsArchiving : string -> bool) (rules : list Rule.t)
  : Archiver string :=
  {| parse := parseLines;
     mergeNewBlocksWithDateTree := append;
     doesTaskNeedArchiving := needsArchiving;
     resolve := fun template _ => template;
     replaceText := fun b => b;
     appendMetadata := fun t => t;
     settings := settingsWith rules;
     archiveHeadingPattern := fun text => JsString.includes text "Archived";
     addNewlinesToSection := fun s => s;
     buildIndentation := fun i => i;
     stringify := stringifySection |}.

Definition note (lines : list string) : RefHost.World :=
  {| RefHost.editorLines := lines;
     RefHost.cursor := mkPosition 0 0;
     RefHost.listItemUnderCursor := None;
     RefHost.headingUnderCursor := None;
     RefHost.vault := ∅;
     RefHost.readOnly := [] |}.

End Double.
Definition hasStatus (marker : ascii) (statuses : string) : bool :=
  existsb (Ascii.eqb marker) (list_ascii_of_string statuses).

(** The claim that the deletion follows an extraction mode: it leaves the
    host as the extraction under that mode leaves it, and reports the
    number of blocks that this extraction takes out. *)
Definition deletionExtractsLike (extractor : BlockExtractor) : Prop :=
  forall (IS : Type) (this : Archiver IS) (World : Type)
         (perform : forall X : Type, Op X -> World -> Result X * World)
         (file : ActiveFile) (s : St World),
    snd (deleteTasksInActiveFile this World perform file s)
    = snd (run perform (extractTasksFromActiveFile this file extractor) s)
    /\ match run perform (extractTasksFromActiveFile this file extractor) s with
       | (Ok tasks, _) =>
           fst (deleteTasksInActiveFile this World perform file s)
           = Ok (if isEmpty tasks then "No tasks to delete"
                 else "Deleted " +:+ JsString.ofNat (length tasks) +:+ " tasks")
       | (Err e, _) => fst (deleteTasksInActiveFile this World perform file s) = Err e
       end.

(** An invariant of a batch, which says nothing of the order in time: the
    error that is kept is the rejection of one of the jobs, and while none
    is kept no job is rejected. *)
Definition rejectionKept (jobs : list (Proc unit)) (first : option Error) : Prop :=
  match first with
  | Some e => Exists (fun job => rejection job = Some e) jobs
  | None => Forall (fun job => rejection job = None) jobs
  end.

(** The rejection of the first job, in the order of the list, that is
    rejected. *)
Fixpoint firstRejected (jobs : list (Proc unit)) : option Error :=
  match jobs with
  | [] => None
  | job :: rest =>
      match rejection job with
      | Some e => Some e
      | None => firstRejected rest
      end
  end.

(** A procedure that is at an [await] or at its end, not in the middle of
    a stretch of synchronous calls. *)
Definition notCall {A} (p : Proc A) : bool :=
  match p with
  | Call _ _ => false
  | _ => true
  end.

(** The life of a batch after its jobs are started, one settlement after
    the other: each step is the settlement of the promise that one pending
    job awaits, after which that job, and no other, goes on to its next
    [await] or to its end.  The error kept is that of the earliest step
    that leaves a job rejected. *)
Inductive batchSteps {World : Type}
  (perform : forall X : Type, Op X -> World -> Result X * World)
  : list (Proc unit) -> option Error -> St World ->
    list (Proc unit) -> option Error -> St World -> Prop :=
| batch_rest (jobs : list (Proc unit)) (first : option Error) (s : St World) :
    batchSteps perform jobs first s jobs first s
| batch_settle (jobs : list (Proc unit)) (first : option Error) (s : St World)
    (i : nat) {X : Type} (op : Op X) (k : X -> Proc unit)
    (job' : Proc unit) (s1 : St World)
    (jobs' : list (Proc unit)) (first' : option Error) (s' : St World) :
    jobs !! i = Some (Await op k) ->
    resume perform (Await op k) s = (job', s1) ->
    batchSteps perform (<[i := job']> jobs)
      (match first with
       | Some e => Some e
       | None => rejection job'
       end) s1 jobs' first' s' ->
    batchSteps perform jobs first s jobs' first' s'.

(** The tasks of a batch as they reach the grouping: after the text
    replacement and the metadata. *)
Definition prepared {IS} (this : Archiver IS) (tasks : list BlockWithRule)
  : list BlockWithRule :=
  map (fun t => appendMetadata this {| task := replaceText this (task t); rule := rule t |})
    tasks.

(** The prepared tasks that are grouped under an archive path. *)
Definition tasksFor {IS} (this : Archiver IS) (archivePath : string)
  (tasks : list BlockWithRule) : list Block :=
  map task
    (List.filter (fun t => String.eqb (archivePathOf this (rule t)) archivePath)
       (prepared this tasks)).

(** A destination write that begins after a write of the same run has
    failed: a file is written in the continuation of its read, and here
    the read of the file settles only after the failure. *)
Definition writeAfterFailure (trace : list Event) : Prop :=
  exists before between between' after failed lines file lines' ok,
    trace
    = before ++ Performed (writeLines failed lines) false
        :: between ++ Performed (readLines file) true
        :: between' ++ Performed (writeLines file lines') ok :: after.

(** A schedule for two jobs that each await a read and then a write, in
    which both reads settle before either write: the first two
    settlements are of different jobs, and so are the last two. *)
Definition bothReadFirst (schedule : list nat) : bool :=
  match schedule with
  | [r0; r1; w0; w1] => (r0 + r1 =? 1)%nat && (w0 + w1 =? 1)%nat
  | _ => false
  end.

(** The job whose promise such a schedule settles last. *)
Definition lastWriter (schedule : list nat) : nat := List.last schedule 0%nat.

(** ** Scenarios *)

Module Scenario.

(** The note of the specification. *)
Definition logNote : list string :=
  ["# Log"; "- [ ] task A"; "- [x] task B"].

(** A checked item under an item that is not. *)
Definition nestedNote : list string :=
  ["- [ ] parent"; "  - [x] child"].

Definition doneRule : Rule.t :=
  {| Rule.statuses := "x";
     Rule.archiveToSeparateFile := true;
     Rule.defaultArchiveFileName := "Done";
     Rule.dateFormat := "YYYY" |}.

Definition droppedRule : Rule.t :=
  {| Rule.statuses := "-";
     Rule.archiveToSeparateFile := true;
     Rule.defaultArchiveFileName := "Dropped";
     Rule.dateFormat := "YYYY" |}.

(** An item that is closed by a keyword, without a checkbox. *)
Definition keywordNote : list string :=
  ["# Log"; "- [ ] task A"; "- DONE task B"].

(** Two destinations, the first of which cannot be written. *)
Definition twoDestinations : RefHost.World :=
  {| RefHost.editorLines := ["- [x] pay rent"; "- [-] call bank"];
     RefHost.cursor := mkPosition 0 0;
     RefHost.listItemUnderCursor := None;
     RefHost.headingUnderCursor := None;
     RefHost.vault := <["Done.md" := RefHost.File [""]]>
                        (<["Dropped.md" := RefHost.File [""]]> ∅);
     RefHost.readOnly := ["Done.md"] |}.

(** The cursor on an open item with a second "[ ]" in its text. *)
Definition openItem : RefHost.World :=
  {| RefHost.editorLines := ["- [ ] open [ ] twice"; "- [-] cancelled"];
     RefHost.cursor := mkPosition 0 3;
     RefHost.listItemUnderCursor := Some (mkPosition 0 0, mkPosition 0 20);
     RefHost.headingUnderCursor := None;
     RefHost.vault := ∅;
     RefHost.readOnly := [] |}.

(** The cursor on a cancelled item. *)
Definition cancelledItem : RefHost.World :=
  {| RefHost.editorLines := ["- [-] cancelled"; "- [ ] open"];
     RefHost.cursor := mkPosition 0 3;
     RefHost.listItemUnderCursor := Some (mkPosition 0 0, mkPosition 0 15);
     RefHost.headingUnderCursor := None;
     RefHost.vault := ∅;
     RefHost.readOnly := [] |}.

(** A rule for a separate file whose path is the sentinel. *)
Definition sentinelRule : Rule.t :=
  {| Rule.statuses := "x";
     Rule.archiveToSeparateFile := true;
     Rule.defaultArchiveFileName := "current-file";
     Rule.dateFormat := "YYYY" |}.

(** A heading three levels deep. *)
Definition project : Section :=
  mkSection " Project" 1 RootBlock
    [mkSection " Plan" 2 RootBlock [mkSection " Steps" 3 RootBlock []]].

End Scenario.

(** Whether the archive goes to the root of a separate file. *)
Definition archivesToRoot {IS} (this : Archiver IS) : bool :=
  Settings.archiveToSeparateFile (settings this)
  && negb (Settings.archiveUnderHeading (settings this)).

(** The Sections, each with its path, whose heading the archive pattern
    accepts. *)
Definition acceptsHeading {IS} (this : Archiver IS) : Path * Section -> bool :=
  fun '(_, x) => archiveHeadingPattern this (sec_text x).
(** How a batch of one job ends when the first rejection so far is
    [first]: the first rejection at the end, and the final state. *)
Definition oneJobOutcome {World : Type}
  (perform : forall X : Type, Op X -> World -> Result X * World)
  (first : option Error) (job : Proc unit) (s : St World) : option Error * St World :=
  let '(r, s') := run perform job s in
  (match first with
   | Some e => Some e
   | None => match r with Ok _ => None | Err e => Some e end
   end, s').

(** A first rejection that is the rejection of the job. *)
Definition rejectedAs (first : option Error) (job : Proc unit) : Prop :=
  match first with
  | Some e => job = Throw e
  | None => True
  end.

(** ** More scenarios *)

Module Cases.

(** A folder where a destination file is expected. *)
Definition folderInTheWay : RefHost.World :=
  {| RefHost.editorLines := ["- [x] pay rent"];
     RefHost.cursor := mkPosition 0 0;
     RefHost.listItemUnderCursor := None;
     RefHost.headingUnderCursor := None;
     RefHost.vault := <["Done.md" := RefHost.Folder]> ∅;
     RefHost.readOnly := [] |}.

(** The active note as a file of the vault. *)
Definition noteOnDisk : RefHost.World :=
  {| RefHost.editorLines := [];
     RefHost.cursor := mkPosition 0 0;
     RefHost.listItemUnderCursor := None;
     RefHost.headingUnderCursor := None;
     RefHost.vault := <["Note.md" := RefHost.File ["# Log"]]> ∅;
     RefHost.readOnly := [] |}.

(** A rule that routes the checked tasks to the file "Note". *)
Definition noteRule : Rule.t :=
  {| Rule.statuses := "x";
     Rule.archiveToSeparateFile := true;
     Rule.defaultArchiveFileName := "Note";
     Rule.dateFormat := "YYYY" |}.

(** A rule that routes the checked tasks to the file "2024", a path that
    reads as an array index. *)
Definition yearRule : Rule.t :=
  {| Rule.statuses := "x";
     Rule.archiveToSeparateFile := true;
     Rule.defaultArchiveFileName := "2024";
     Rule.dateFormat := "YYYY" |}.

(** A vault with the file "2024.md". *)
Definition yearOnDisk : RefHost.World :=
  {| RefHost.editorLines := [];
     RefHost.cursor := mkPosition 0 0;
     RefHost.listItemUnderCursor := None;
     RefHost.headingUnderCursor := None;
     RefHost.vault := <["2024.md" := RefHost.File ["# Log"]]> ∅;
     RefHost.readOnly := [] |}.

(** A task that stays in the active file and a task that a rule routes
    to a file. *)
Definition keptAndRouted (rule : Rule.t) : list BlockWithRule :=
  [{| task := mkBlock "- [x] kept in the note" [];
      rule := getDefaultRule (Double.archiver Double.checked []) |};
   {| task := mkBlock "- [x] routed to the note" []; rule := rule |}].

(** The editor answers with the range of a heading when asked for a list
    item. *)
Definition itemRangeOnHeading : RefHost.World :=
  {| RefHost.editorLines := Scenario.logNote;
     RefHost.cursor := mkPosition 0 2;
     RefHost.listItemUnderCursor := Some (mkPosition 0 0, mkPosition 0 5);
     RefHost.headingUnderCursor := None;
     RefHost.vault := ∅;
     RefHost.readOnly := [] |}.

(** The editor answers with the range of a list item when asked for a
    heading. *)
Definition headingRangeOnItem : RefHost.World :=
  {| RefHost.editorLines := Scenario.logNote;
     RefHost.cursor := mkPosition 1 2;
     RefHost.listItemUnderCursor := None;
     RefHost.headingUnderCursor := Some (mkPosition 1 0, mkPosition 1 12);
     RefHost.vault := ∅;
     RefHost.readOnly := [] |}.

(** An archiver whose pattern accepts the heading "Archived" alone, without
    the space that follows the heading marker. *)
Definition strictArchiver : Archiver string :=
  {| parse := Double.parseLines;
     mergeNewBlocksWithDateTree := Double.append;
     doesTaskNeedArchiving := Double.checked;
     resolve := fun template _ => template;
     replaceText := fun b => b;
     appendMetadata := fun t => t;
     settings := Double.settingsWith [];
     archiveHeadingPattern := fun text => String.eqb text "Archived";
     addNewlinesToSection := fun s => s;
     buildIndentation := fun i => i;
     stringify := Double.stringifySection |}.

Definition inFileRule : Rule.t :=
  {| Rule.statuses := "x";
     Rule.archiveToSeparateFile := false;
     Rule.defaultArchiveFileName := "";
     Rule.dateFormat := "YYYY" |}.

End Cases.

(** * Properties *)

(** ** Strings *)

Lemma append_cons (a : ascii) (s t : string) :
  String a s +:+ t = String a (s +:+ t).
Proof. reflexivity. Qed.

Lemma startsWith_append (p s : string) : JsString.startsWith p (p +:+ s) = true.
Proof.
  induction p as [|a p IH]; simpl; [reflexivity|].
  rewrite Ascii.eqb_refl. exact IH.
Qed.

Lemma drop_append (p s : string) : JsString.drop (String.length p) (p +:+ s) = s.
Proof. induction p as [|a p IH]; simpl; [reflexivity | exact IH]. Qed.

Lemma replace_absent (s pat rep : string) :
  JsString.includes s pat = false -> JsString.replace s pat rep = s.
Proof.
  induction s as [|c s IH]; simpl.
  - destruct (JsString.startsWith pat EmptyString); [discriminate | reflexivity].
  - destruct (JsString.startsWith pat (String c s)); [discriminate|].
    intros H. rewrite (IH H). reflexivity.
Qed.

Lemma startsWith_split (p s : string) :
  JsString.startsWith p s = true -> s = p +:+ JsString.drop (String.length p) s.
Proof.
  revert s. induction p as [|a p IH]; intros s H; simpl; [reflexivity|].
  destruct s as [|b s]; simpl in H; [discriminate|].
  destruct (Ascii.eqb_spec a b) as [->|]; [|discriminate].
  rewrite append_cons. f_equal. apply IH. exact H.
Qed.

Lemma replace_first (s pat rep : string) :
  JsString.includes s pat = true ->
  exists pre post,
    s = pre +:+ pat +:+ post
    /\ (forall i, (i < String.length pre)%nat ->
                  JsString.startsWith pat (JsString.drop i s) = false)
    /\ JsString.replace s pat rep = pre +:+ rep +:+ post.
Proof.
  induction s as [|c s IH].
  - destruct pat as [|a pat]; simpl; [|discriminate].
    intros _. exists EmptyString, EmptyString. simpl.
    repeat split. intros i Hi. lia.
  - cbn [JsString.includes JsString.replace].
    destruct (JsString.startsWith pat (String c s)) eqn:Hp.
    + intros _. exists EmptyString, (JsString.drop (String.length pat) (String c s)).
      split; [exact (startsWith_split _ _ Hp)|].
      split; [intros i Hi; simpl in Hi; lia | reflexivity].
    + intros H. destruct (IH H) as (pre & post & Hs & Hfirst & Hr).
      exists (String c pre), post. rewrite !append_cons.
      split; [f_equal; exact Hs|].
      split; [|f_equal; exact Hr].
      intros [|i] Hi; simpl; [exact Hp|]. apply Hfirst. simpl in Hi. lia.
Qed.

Lemma includes_marker (statuses : string) (marker : ascii) :
  JsString.includes statuses (String marker EmptyString) = hasStatus marker statuses.
Proof.
  unfold hasStatus. induction statuses as [|c s IH]; simpl; [reflexivity|].
  rewrite (Ascii.eqb_sym marker c).
  destruct (Ascii.eqb c marker); simpl; [reflexivity | exact IH].
Qed.

Lemma matchStatus_marker (text st : string) :
  matchStatus text = Some st -> exists marker, st = String marker EmptyString.
Proof.
  induction text as [|c rest IH]; simpl; [discriminate|].
  destruct rest as [|d [|e rest']]; try exact IH.
  destruct (_ && _ && _); [|exact IH].
  intros [= <-]. eauto.
Qed.

Lemma matchStatus_tail (c : ascii) (rest : string) :
  matchStatus (String c rest) = None -> matchStatus rest = None.
Proof.
  simpl. destruct rest as [|d [|e rest']]; try (intros H; exact H).
  destruct (_ && _ && _); [discriminate | intros H; exact H].
Qed.

(** A text without a status marker: every pair of brackets around one
    character is around a line terminator. *)
Lemma matchStatus_none (text : string) :
  matchStatus text = None
  <-> forall pre marker post,
      text = pre +:+ String "[" (String marker (String "]" post)) ->
      JsString.isLineTerminator marker = true.
Proof.
  split.
  - intros Hnone pre. revert text Hnone.
    induction pre as [|a pre IH]; intros text Hnone marker post ->.
    + simpl in Hnone. change ("" +:+ ?x) with x in Hnone.
      cbn in Hnone. destruct (JsString.isLineTerminator marker); [reflexivity|].
      discriminate.
    + rewrite append_cons in Hnone. apply matchStatus_tail in Hnone.
      exact (IH _ Hnone marker post eq_refl).
  - induction text as [|c rest IH]; intros H; [reflexivity|].
    assert (Hrest : matchStatus rest = None).
    { apply IH. intros pre marker post ->.
      apply (H (String c pre) marker post). reflexivity. }
    simpl. destruct rest as [|d [|e rest']]; try exact Hrest.
    destruct (Ascii.eqb_spec c "[") as [->|]; [|exact Hrest].
    destruct (Ascii.eqb_spec e "]") as [->|];
      [|rewrite andb_false_r; exact Hrest].
    rewrite (H EmptyString d rest' eq_refl). exact Hrest.
Qed.

Lemma matchStatus_some (text st : string) :
  matchStatus text = Some st ->
  exists pre marker post,
    st = String marker EmptyString
    /\ text = pre +:+ String "[" (String marker (String "]" post))
    /\ JsString.isLineTerminator marker = false.
Proof.
  induction text as [|c rest IH]; [discriminate|].
  assert (Hrest : matchStatus rest = Some st ->
                  exists pre marker post,
                    st = String marker EmptyString
                    /\ String c rest = pre +:+ String "[" (String marker (String "]" post))
                    /\ JsString.isLineTerminator marker = false).
  { intros H. destruct (IH H) as (pre & marker & post & -> & -> & Hlt).
    exists (String c pre), marker, post. auto. }
  simpl. destruct rest as [|d [|e rest']]; try exact Hrest.
  destruct (Ascii.eqb_spec c "[") as [->|]; [|exact Hrest].
  destruct (JsString.isLineTerminator d) eqn:Hlt; [exact Hrest|].
  destruct (Ascii.eqb_spec e "]") as [->|]; [|exact Hrest].
  intros [= <-]. exists EmptyString, d, rest'. auto.
Qed.

(** ** Rules *)

Lemma withRule_error {IS} (this : Archiver IS) (task : Block) (e : Error) :
  withRule this task = Err e -> e = TypeError "null is not iterable".
Proof.
  unfold withRule.
  assert (H : forall rules e', findRule rules task = Err e' ->
                               e' = TypeError "null is not iterable").
  { induction rules as [|r rules IH]; simpl; [discriminate|].
    unfold getTaskStatus. destruct (matchStatus (block_text task)).
    - destruct (JsString.includes _ _); [discriminate | exact (IH)].
    - intros e' [= <-]. reflexivity. }
  destruct (findRule _ task) as [[r|]|e'] eqn:Hf; try discriminate.
  intros [= <-]. exact (H _ _ Hf).
Qed.

Lemma withRule_unparsed {IS} (this : Archiver IS) (task : Block) :
  matchStatus (block_text task) = None ->
  Settings.rules (settings this) <> [] ->
  withRule this task = Err (TypeError "null is not iterable").
Proof.
  intros Hm Hr. unfold withRule.
  destruct (Settings.rules (settings this)) as [|r rules]; [congruence|].
  simpl. unfold getTaskStatus. rewrite Hm. reflexivity.
Qed.

Lemma withRule_without_rules {IS} (this : Archiver IS) (task : Block) :
  Settings.rules (settings this) = [] ->
  withRule this task = Ok {| task := task; rule := getDefaultRule this |}.
Proof. intros Hr. unfold withRule. rewrite Hr. reflexivity. Qed.

Lemma mapResult_length {A B} (f : A -> Result B) (xs : list A) (ys : list B) :
  mapResult f xs = Ok ys -> length ys = length xs.
Proof.
  revert ys. induction xs as [|x xs IH]; simpl; intros ys.
  - intros [= <-]. reflexivity.
  - destruct (f x); [|discriminate].
    destruct (mapResult f xs) as [ys'|]; [|discriminate].
    intros [= <-]. simpl. f_equal. apply IH. reflexivity.
Qed.

Lemma mapResult_Exists_error {A B} (f : A -> Result B) (xs : list A) (e : Error) :
  (forall x e', f x = Err e' -> e' = e) ->
  Exists (fun x => f x = Err e) xs ->
  mapResult f xs = Err e.
Proof.
  intros Hone Hex. induction Hex as [x xs Hx | x xs Hex IH]; simpl.
  - rewrite Hx. reflexivity.
  - destruct (f x) as [y|e'] eqn:Hx.
    + rewrite IH. reflexivity.
    + f_equal. exact (Hone _ _ Hx).
Qed.

Lemma findRule_find (rules : list Rule.t) (task : Block) (marker : ascii) :
  matchStatus (block_text task) = Some (String marker EmptyString) ->
  findRule rules task
  = Ok (List.find (fun rule => hasStatus marker (Rule.statuses rule)) rules).
Proof.
  intros Hm. induction rules as [|r rules IH]; simpl; [reflexivity|].
  unfold getTaskStatus. rewrite Hm, includes_marker.
  destruct (hasStatus marker (Rule.statuses r)); [reflexivity | exact IH].
Qed.

(** C4: a task whose status marker can be read is given the first
    configured rule whose statuses contain the marker, and the default rule,
    built from the global settings, when no configured rule contains it. *)
Theorem rule_selection {IS} (this : Archiver IS) (task : Block) (taskStatus : string) :
  getTaskStatus task = Ok taskStatus ->
  exists marker,
    taskStatus = String marker EmptyString
    /\ withRule this task
       = Ok {| task := task;
               rule := match List.find
                               (fun rule => hasStatus marker (Rule.statuses rule))
                               (Settings.rules (settings this)) with
                       | Some rule => rule
                       | None => getDefaultRule this
                       end |}
    /\ getDefaultRule this
       = {| Rule.statuses := "";
            Rule.archiveToSeparateFile := Settings.archiveToSeparateFile (settings this);
            Rule.defaultArchiveFileName := Settings.defaultArchiveFileName (settings this);
            Rule.dateFormat :=
              Settings.additionalMetadataBeforeArchiving_dateFormat (settings this) |}.
Proof.
  unfold getTaskStatus.
  destruct (matchStatus (block_text task)) as [st|] eqn:Hm; [|discriminate].
  intros [= <-]. destruct (matchStatus_marker _ _ Hm) as [marker ->].
  exists marker. split; [reflexivity|]. split; [|reflexivity].
  unfold withRule. rewrite (findRule_find _ _ _ Hm).
  destruct (List.find _ _); reflexivity.
Qed.

(** ** Reading, editing and writing back a file *)

Section Runs.

Context {IS : Type} (this : Archiver IS).
Context {World : Type}.
Variable perform : forall X : Type, Op X -> World -> Result X * World.

Lemma run_bind {A B} (p : Proc A) (f : A -> Proc B) (s : St World) :
  run perform (Proc_bind p f) s
  = let '(r, s') := run perform p s in
    match r with
    | Ok a => run perform (f a) s'
    | Err e => (Err e, s')
    end.
Proof.
  revert s. induction p as [a|e|X op k IH|X op k IH]; intros s; simpl;
    try reflexivity.
  - destruct (exec perform op s) as [[x|e] s']; [apply IH | reflexivity].
  - destruct (exec perform op s) as [[x|e] s']; [apply IH | reflexivity].
Qed.

Lemma run_editFileTree {A} (file : ActiveFile) (cb : TreeEditorCallback A) (s : St World) :
  run perform (editFileTree this file cb) s
  = let '(r, s1) := exec perform (readLines file) s in
    match r with
    | Err e => (Err e, s1)
    | Ok lines =>
        match cb (parse this lines) with
        | Err e => (Err e, s1)
        | Ok (result, tree') =>
            let '(r2, s2) :=
              exec perform (writeLines file (stringifyTree this tree')) s1 in
            match r2 with
            | Ok _ => (Ok result, s2)
            | Err e => (Err e, s2)
            end
        end
    end.
Proof.
  unfold editFileTree. simpl.
  destruct (exec perform (readLines file) s) as [[lines|e] s1]; [|reflexivity].
  destruct (cb (parse this lines)) as [[result tree']|e]; [|reflexivity].
  simpl. destruct (exec perform (writeLines file _) s1) as [[[]|e] s2]; reflexivity.
Qed.

(** What a successful extraction does to the host: the file is read, the
    tree without the extracted blocks is written back, and nothing else
    is called. *)
Lemma run_extractTasks (file : ActiveFile) (extractor : BlockExtractor)
  (s : St World) (lines : list string) (w1 : World) :
  perform _ (readLines file) (fst s) = (Ok lines, w1) ->
  let '(extracted, tree') :=
    extractBlocksRecursively (parse this lines) (taskFilter this) extractor in
  let written := writeLines file (stringifyTree this tree') in
  let '(rw, w2) := perform _ written w1 in
  run perform (extractTasksFromActiveFile this file extractor) s
  = (match rw with Ok _ => Ok extracted | Err e => Err e end,
     (w2, snd s ++ [Performed (readLines file) true; Performed written (isOk rw)])).
Proof.
  intros Hread. unfold extractTasksFromActiveFile. rewrite run_editFileTree.
  unfold exec at 1. rewrite Hread. cbn [isOk fst snd].
  destruct (extractBlocksRecursively _ _ _) as [extracted tree'].
  unfold exec. cbn [fst snd].
  destruct (perform _ (writeLines file (stringifyTree this tree')) w1) as [[[]|e] w2];
    cbn [isOk]; rewrite <- app_assoc; reflexivity.
Qed.

Lemma eventLoop_nil (schedule : list nat) (first : option Error) (s : St World) :
  eventLoop perform schedule [] first s = ([], first, s).
Proof. induction schedule as [|i schedule IH]; simpl; [reflexivity | exact IH]. Qed.

Lemma promiseAll_nil (schedule : list nat) (s : St World) :
  promiseAll perform schedule [] s = (Ok tt, s).
Proof. unfold promiseAll, runAll. simpl. rewrite eventLoop_nil. reflexivity. Qed.

End Runs.

(** The extraction has read the source and written it back: the run of
    [extractTasksFromActiveFile] in the goal is replaced by its outcome. *)
Ltac source_written_back this perform extractor Hread Hex Hwrite :=
  let Hrun := fresh "Hrun" in
  pose proof (run_extractTasks this perform _ extractor _ _ _ Hread) as Hrun;
  rewrite Hex in Hrun; cbv zeta in Hrun; rewrite Hwrite in Hrun;
  rewrite Hrun; clear Hrun.

(** ** The batched operations *)

Section Batched.

Context {IS : Type} (this : Archiver IS).
Context {World : Type}.
Variable perform : forall X : Type, Op X -> World -> Result X * World.
Variable schedule : list nat.

(** C1 (the code departs from the claim): with at least one configured
    rule, an extracted block without a status marker does not fall back
    to the default rule.  Reading its status throws, the operation fails
    with a [TypeError], and by then the source has been written back
    without the extracted blocks. *)
Theorem unparsed_status_is_fatal (file : ActiveFile) (extractor : BlockExtractor)
  (s : St World) (lines : list string) (w1 w2 : World)
  (extracted : list Block) (tree' : Section) :
  perform _ (readLines file) (fst s) = (Ok lines, w1) ->
  extractBlocksRecursively (parse this lines) (taskFilter this) extractor
  = (extracted, tree') ->
  perform _ (writeLines file (stringifyTree this tree')) w1 = (Ok tt, w2) ->
  Settings.rules (settings this) <> [] ->
  Exists (fun block => matchStatus (block_text block) = None) extracted ->
  extractAndArchiveTasksInActiveFile this World perform schedule file extractor s
  = (Err (TypeError "null is not iterable"),
     (w2, snd s ++ [Performed (readLines file) true;
                    Performed (writeLines file (stringifyTree this tree')) true])).
Proof.
  intros Hread Hex Hwrite Hrules Hbad.
  unfold extractAndArchiveTasksInActiveFile, M_bind.
  source_written_back this perform extractor Hread Hex Hwrite. cbn [isOk]. unfold M_result.
  rewrite (mapResult_Exists_error (withRule this) extracted
             (TypeError "null is not iterable")); [reflexivity | |].
  - intros x e. apply withRule_error.
  - eapply Exists_impl; [exact Hbad|].
    intros block Hm. apply withRule_unparsed; assumption.
Qed.

(** C2: when the batched archive operation returns, it returns "No tasks
    to archive" if the extraction took no block out of the source, and
    "Archived N tasks" for the N > 0 blocks that it took out. *)
Theorem archive_report (file : ActiveFile) (extractor : BlockExtractor)
  (s s' : St World) (report : string) :
  extractAndArchiveTasksInActiveFile this World perform schedule file extractor s
  = (Ok report, s') ->
  exists lines w1,
    perform _ (readLines file) (fst s) = (Ok lines, w1)
    /\ let extracted :=
         fst (extractBlocksRecursively (parse this lines) (taskFilter this) extractor) in
       (extracted = [] -> report = "No tasks to archive")
       /\ (extracted <> [] ->
           report = "Archived " +:+ JsString.ofNat (length extracted) +:+ " tasks").
Proof.
  unfold extractAndArchiveTasksInActiveFile, M_bind.
  destruct (perform _ (readLines file) (fst s)) as [[lines|e] w1] eqn:Hread.
  - pose proof (run_extractTasks this perform file extractor s lines w1 Hread) as Hrun.
    destruct (extractBlocksRecursively _ _ _) as [extracted tree'] eqn:Hex.
    cbv zeta in Hrun.
    destruct (perform _ (writeLines file _) w1) as [[[]|e] w2]; rewrite Hrun;
      [|discriminate].
    unfold M_result.
    destruct (mapResult (withRule this) extracted) as [tasks|e] eqn:Hmap;
      [|discriminate].
    destruct (archiveTasks _ _ _ _ _ _ _) as [[[]|e] s3]; [|discriminate].
    unfold M_ret. intros [= <- <-]. exists lines, w1. split; [reflexivity|].
    cbv zeta. rewrite Hex. cbn [fst]. pose proof (mapResult_length _ _ _ Hmap) as Hlen.
    split; intros Hn.
    + rewrite Hn in Hlen. destruct tasks; [reflexivity | discriminate].
    + destruct tasks as [|t tasks]; [destruct extracted; [congruence | discriminate]|].
      cbn [isEmpty]. rewrite Hlen. reflexivity.
  - unfold extractTasksFromActiveFile. rewrite run_editFileTree.
    unfold exec. rewrite Hread. discriminate.
Qed.

(** With nothing to extract, the operation returns as soon as the source
    has been read and written back. *)
Lemma archive_nothing (file : ActiveFile) (extractor : BlockExtractor)
  (s : St World) (lines : list string) (w1 w2 : World) (tree' : Section) :
  perform _ (readLines file) (fst s) = (Ok lines, w1) ->
  extractBlocksRecursively (parse this lines) (taskFilter this) extractor = ([], tree') ->
  perform _ (writeLines file (stringifyTree this tree')) w1 = (Ok tt, w2) ->
  extractAndArchiveTasksInActiveFile this World perform schedule file extractor s
  = (Ok "No tasks to archive",
     (w2, snd s ++ [Performed (readLines file) true;
                    Performed (writeLines file (stringifyTree this tree')) true])).
Proof.
  intros Hread Hex Hwrite.
  unfold extractAndArchiveTasksInActiveFile, M_bind.
  source_written_back this perform extractor Hread Hex Hwrite. unfold M_result. cbn [mapResult isOk].
  unfold archiveTasks. rewrite promiseAll_nil. reflexivity.
Qed.

(** With the source read and written back, every task given a rule and
    every destination job done, the operation returns its report. *)
Lemma archive_returns (file : ActiveFile) (extractor : BlockExtractor)
  (s s3 : St World) (lines : list string) (w1 w2 : World)
  (extracted : list Block) (tree' : Section) (tasks : list BlockWithRule) :
  perform _ (readLines file) (fst s) = (Ok lines, w1) ->
  extractBlocksRecursively (parse this lines) (taskFilter this) extractor
  = (extracted, tree') ->
  perform _ (writeLines file (stringifyTree this tree')) w1 = (Ok tt, w2) ->
  mapResult (withRule this) extracted = Ok tasks ->
  archiveTasks this World perform schedule tasks file
    (w2, snd s ++ [Performed (readLines file) true;
                   Performed (writeLines file (stringifyTree this tree')) true])
  = (Ok tt, s3) ->
  extractAndArchiveTasksInActiveFile this World perform schedule file extractor s
  = (Ok (if isEmpty extracted then "No tasks to archive"
         else "Archived " +:+ JsString.ofNat (length extracted) +:+ " tasks"),
     s3).
Proof.
  intros Hread Hex Hwrite Hmap Hjobs.
  unfold extractAndArchiveTasksInActiveFile, M_bind.
  source_written_back this perform extractor Hread Hex Hwrite. cbn [isOk]. unfold M_result. rewrite Hmap, Hjobs. unfold M_ret.
  pose proof (mapResult_length _ _ _ Hmap) as Hlen.
  destruct tasks, extracted; try discriminate; [reflexivity|].
  cbn [isEmpty]. rewrite Hlen. reflexivity.
Qed.

(** C3, as the code has it: the deletion takes no extraction mode.  It
    always extracts as the shallow archive operation does, writes the
    source back without the extracted blocks, calls the host for nothing
    else, and reports the number of blocks taken out. *)
Theorem deletion_is_shallow :
  deletionExtractsLike shallowExtractBlocks
  /\ forall (file : ActiveFile) (s : St World) (lines : list string) (w1 : World),
      perform _ (readLines file) (fst s) = (Ok lines, w1) ->
      let '(extracted, tree') :=
        extractBlocksRecursively (parse this lines) (taskFilter this)
          shallowExtractBlocks in
      let written := writeLines file (stringifyTree this tree') in
      let '(rw, w2) := perform _ written w1 in
      deleteTasksInActiveFile this World perform file s
      = (match rw with
         | Ok _ =>
             Ok (if isEmpty extracted then "No tasks to delete"
                 else "Deleted " +:+ JsString.ofNat (length extracted) +:+ " tasks")
         | Err e => Err e
         end,
         (w2, snd s ++ [Performed (readLines file) true;
                        Performed written (isOk rw)])).
Proof.
  split.
  - intros IS' this' World' perform' file s.
    unfold deleteTasksInActiveFile, M_bind.
    destruct (run perform' _ s) as [[tasks|e] s1]; split; reflexivity.
  - intros file s lines w1 Hread.
    pose proof (run_extractTasks this perform file shallowExtractBlocks s lines w1 Hread)
      as Hrun.
    destruct (extractBlocksRecursively _ _ _) as [extracted tree'].
    cbv zeta in Hrun |- *.
    destruct (perform _ (writeLines file _) w1) as [[[]|e] w2];
      unfold deleteTasksInActiveFile, M_bind; rewrite Hrun; reflexivity.
Qed.

End Batched.

(** ** Paths in a tree of Sections *)

Lemma find_relabel {A} (i : nat) (P : A -> bool) (l : list (Path * A)) :
  List.find (fun '(_, x) => P x) (map (fun '(p, x) => (i :: p, x)) l)
  = option_map (fun '(p, x) => (i :: p, x)) (List.find (fun '(_, x) => P x) l).
Proof.
  induction l as [|[p x] l IH]; simpl; [reflexivity|].
  destruct (P x); [reflexivity | exact IH].
Qed.

Lemma find_app_first {A} (P : A -> bool) (l1 l2 : list A) :
  List.find P (l1 ++ l2)
  = match List.find P l1 with
    | Some x => Some x
    | None => List.find P l2
    end.
Proof.
  induction l1 as [|x l1 IH]; simpl; [reflexivity|].
  destruct (P x); [reflexivity | exact IH].
Qed.

Lemma searchFrom_collectFrom {A B} (search : A -> option (Path * B))
  (collect : A -> list (Path * B)) (P : B -> bool) (cs : list A) :
  Forall (fun c => search c = List.find (fun '(_, x) => P x) (collect c)) cs ->
  forall i,
    searchFrom search i cs
    = List.find (fun '(_, x) => P x) (collectFrom collect i cs).
Proof.
  induction 1 as [|c cs Hc _ IH]; intros i; simpl; [reflexivity|].
  rewrite find_app_first, find_relabel, <- Hc.
  destruct (search c) as [[p found]|]; simpl; [reflexivity | apply IH].
Qed.

(** The recursive search returns the first Section of the document order
    that the predicate accepts. *)
Lemma findSectionRecursively_first (cb : Section -> bool) (s : Section) :
  findSectionRecursively s cb = List.find (fun '(_, x) => cb x) (preorder s).
Proof.
  induction s as [t l b cs IH] using Section_tree_ind. simpl.
  destruct (cb _); [reflexivity|].
  apply searchFrom_collectFrom. exact IH.
Qed.

Lemma collectFrom_In {A B} (collect : A -> list (Path * B)) (cs : list A)
  (i : nat) (p : Path) (x : B) :
  In (p, x) (collectFrom collect i cs)
  <-> exists j c p', p = (i + j)%nat :: p' /\ cs !! j = Some c /\ In (p', x) (collect c).
Proof.
  revert i. induction cs as [|c cs IH]; intros i; simpl.
  - split; [intros [] | intros (j & c & p' & _ & H & _); discriminate].
  - rewrite in_app_iff, in_map_iff, IH. split.
    + intros [([p' x'] & [= <- <-] & Hin) | (j & c' & p' & -> & Hj & Hin)].
      * exists O, c, p'. rewrite Nat.add_0_r. auto.
      * exists (S j), c', p'. rewrite Nat.add_succ_r. auto.
    + intros (j & c' & p' & -> & Hj & Hin). destruct j as [|j]; simpl in Hj.
      * injection Hj as <-. left. exists (p', x). rewrite Nat.add_0_r. auto.
      * right. exists j, c', p'. rewrite Nat.add_succ_r. auto.
Qed.

Lemma preorder_sectionAt (s : Section) (p : Path) (x : Section) :
  In (p, x) (preorder s) -> sectionAt p s = Some x.
Proof.
  revert p. induction s as [t l b cs IH] using Section_tree_ind.
  intros p. simpl. intros [[= <- <-] | Hin]; [reflexivity|].
  apply collectFrom_In in Hin. destruct Hin as (j & c & p' & -> & Hj & Hin).
  simpl. rewrite Hj. rewrite Forall_forall in IH.
  apply (IH c); [|exact Hin].
  eapply list_elem_of_lookup_2. exact Hj.
Qed.

Lemma sectionAt_app (p q : Path) (s : Section) :
  sectionAt (p ++ q) s
  = match sectionAt p s with
    | Some x => sectionAt q x
    | None => None
    end.
Proof.
  revert s. induction p as [|i p IH]; intros s; simpl; [reflexivity|].
  destruct (sec_children s !! i); [apply IH | reflexivity].
Qed.

Lemma sectionAt_updateAt (f : Section -> Section) (p : Path) (s x : Section) :
  sectionAt p s = Some x -> sectionAt p (updateAt p f s) = Some (f x).
Proof.
  revert s. induction p as [|i p IH]; intros s; simpl.
  - intros [= <-]. reflexivity.
  - destruct (sec_children s !! i) as [c|] eqn:Hc; [|discriminate].
    intros Hx. rewrite list_lookup_alter, Hc. simpl. rewrite decide_True by reflexivity.
    simpl. apply IH. exact Hx.
Qed.

Lemma sectionAt_appended (s c : Section) :
  sectionAt [length (sec_children s)] (appendChild s c) = Some c.
Proof.
  simpl. rewrite lookup_app_r by lia. rewrite Nat.sub_diag. reflexivity.
Qed.

Lemma appended_in_preorder (s c : Section) :
  In ([length (sec_children s)], c) (preorder (appendChild s c)).
Proof.
  simpl. right. apply collectFrom_In.
  exists (length (sec_children s)), c, []. split; [reflexivity|]. split.
  - rewrite lookup_app_r by lia. rewrite Nat.sub_diag. reflexivity.
  - destruct c. simpl. left. reflexivity.
Qed.

Lemma sectionAt_shift (delta : Z) (q : Path) (s d : Section) :
  sectionAt q s = Some d ->
  sectionAt q (shiftTokenLevels delta s) = Some (shiftTokenLevels delta d).
Proof.
  revert s. induction q as [|i q IH]; intros s.
  - simpl. intros [= <-]. reflexivity.
  - destruct s as [t l b cs]. simpl.
    rewrite list_lookup_fmap. destruct (cs !! i) as [c|]; [|discriminate].
    simpl. apply IH.
Qed.

Lemma tokenLevel_shift (delta : Z) (s : Section) :
  tokenLevel (shiftTokenLevels delta s) = tokenLevel s + delta.
Proof. destruct s. reflexivity. Qed.

(** ** The archive Section *)

Section ArchiveSection.

Context {IS : Type} (this : Archiver IS).

Lemma archive_section_valid (root : Section) :
  let '(root', p, archive) := getArchiveSectionFromRoot this root in
  sectionAt p root' = Some archive.
Proof.
  unfold getArchiveSectionFromRoot.
  destruct (_ && _); [reflexivity|].
  rewrite findSectionRecursively_first.
  destruct (List.find _ (preorder root)) as [[q found]|] eqn:Hfind.
  - apply find_some in Hfind. apply preorder_sectionAt. apply Hfind.
  - apply sectionAt_appended.
Qed.


Lemma moved_heading_location (section tree : Section) :
  let '(tree', p, archive) := getArchiveSectionFromRoot this tree in
  exists tree'', appendToArchive this (Some section) tree = Ok (tt, tree'').
Proof.
  unfold appendToArchive.
  destruct (getArchiveSectionFromRoot this tree) as [[tree' p] archive]. eauto.
Qed.

(** C7: the heading sub-tree moved under an archive Section of level L
    becomes the last child of that Section; its top has level L + 1, and
    every Section of the sub-tree has its level shifted by the delta of
    the top, so the differences of level inside the sub-tree are kept. *)
Theorem moved_heading_levels (section tree : Section) :
  let '(tree', p, archive) := getArchiveSectionFromRoot this tree in
  exists tree'' moved,
    appendToArchive this (Some section) tree = Ok (tt, tree'')
    /\ sectionAt p tree'' = Some (appendChild archive moved)
    /\ sectionAt (p ++ [length (sec_children archive)]) tree'' = Some moved
    /\ tokenLevel moved = tokenLevel archive + 1
    /\ forall q d,
        sectionAt q section = Some d ->
        exists d',
          sectionAt q moved = Some d'
          /\ tokenLevel d' = tokenLevel d + (tokenLevel moved - tokenLevel section)
          /\ tokenLevel d' - tokenLevel moved = tokenLevel d - tokenLevel section.
Proof.
  pose proof (archive_section_valid tree) as Hvalid.
  unfold appendToArchive.
  destruct (getArchiveSectionFromRoot this tree) as [[tree' p] archive].
  set (moved := recalculateTokenLevels section (tokenLevel archive + 1)).
  exists (updateAt p (fun s => appendChild s moved) tree'), moved.
  assert (Hat : sectionAt p (updateAt p (fun s => appendChild s moved) tree')
                = Some (appendChild archive moved))
    by (apply (sectionAt_updateAt (fun s => appendChild s moved)); exact Hvalid).
  assert (Htop : tokenLevel moved = tokenLevel archive + 1)
    by (unfold moved, recalculateTokenLevels; rewrite tokenLevel_shift; lia).
  repeat split; try assumption.
  - rewrite sectionAt_app, Hat. apply sectionAt_appended.
  - intros q d Hd. exists (shiftTokenLevels (tokenLevel archive + 1 - tokenLevel section) d).
    split; [apply sectionAt_shift; exact Hd|].
    rewrite tokenLevel_shift, Htop. lia.
Qed.

(** In the file of the heading: what [archiveSection] writes back is the
    tree in which the heading has been moved under the archive Section. *)
Lemma archiveSection_in_file {World : Type}
  (perform : forall X : Type, Op X -> World -> Result X * World)
  (activeFile : ActiveFile) (section : Section) (s : St World)
  (lines : list string) (w1 : World) :
  Settings.archiveToSeparateFile (settings this) = false ->
  perform _ (readLines activeFile) (fst s) = (Ok lines, w1) ->
  exists tree'',
    appendToArchive this (Some section) (parse this lines) = Ok (tt, tree'')
    /\ run perform (archiveSection this activeFile (Some section)) s
       = let written := writeLines activeFile (stringifyTree this tree'') in
         let '(rw, w2) := perform _ written w1 in
         (match rw with Ok _ => Ok tt | Err e => Err e end,
          (w2, snd s ++ [Performed (readLines activeFile) true;
                         Performed written (isOk rw)])).
Proof.
  intros Hfile Hread.
  pose proof (moved_heading_location section (parse this lines)) as Hmoved.
  destruct (getArchiveSectionFromRoot this (parse this lines)) as [[tree' p] archive].
  destruct Hmoved as (tree'' & Hcb). exists tree''. split; [exact Hcb|].
  unfold archiveSection, getArchiveFile. rewrite Hfile. cbn [negb Proc_bind].
  rewrite run_editFileTree. unfold exec at 1. rewrite Hread. rewrite Hcb.
  unfold exec. cbn [fst snd isOk].
  destruct (perform _ (writeLines activeFile (stringifyTree this tree'')) w1)
    as [[[]|e] w2]; cbn [isOk]; rewrite <- app_assoc; reflexivity.
Qed.

(** The second search for the archive Section finds a Section, and
    appends none, as soon as the archive pattern accepts the heading that
    [buildArchiveSection] writes. *)
Lemma archive_section_reused (root : Section) :
  archiveHeadingPattern this (sec_text (buildArchiveSection this)) = true ->
  let '(root1, _, _) := getArchiveSectionFromRoot this root in
  let '(root2, _, archive2) := getArchiveSectionFromRoot this root1 in
  root2 = root1
  /\ (archivesToRoot this = false ->
      archiveHeadingPattern this (sec_text archive2) = true).
Proof.
  intros Hbuilt. unfold getArchiveSectionFromRoot. fold (archivesToRoot this).
  rewrite findSectionRecursively_first. fold (acceptsHeading this).
  destruct (archivesToRoot this); [split; [reflexivity | discriminate]|].
  destruct (List.find (acceptsHeading this) (preorder root)) as [[q found]|] eqn:Hfind.
  - rewrite findSectionRecursively_first. fold (acceptsHeading this). rewrite Hfind.
    split; [reflexivity|]. intros _.
    apply find_some in Hfind. apply Hfind.
  - rewrite findSectionRecursively_first. fold (acceptsHeading this).
    match goal with
    | |- context [List.find (acceptsHeading this) (preorder (appendChild ?r ?c))] =>
        pose proof (appended_in_preorder r c) as Hin;
        destruct (List.find (acceptsHeading this) (preorder (appendChild r c)))
          as [[q found]|] eqn:Hfind2
    end.
    + split; [reflexivity|]. intros _. apply find_some in Hfind2. apply Hfind2.
    + exfalso. apply (find_none _ _ Hfind2) in Hin. simpl in Hin.
      unfold buildArchiveSection in Hbuilt. simpl in Hbuilt. congruence.
Qed.

(** Without separators, and with a pattern that does not accept the
    heading that [buildArchiveSection] writes, each search appends one
    more archive Section. *)
Lemma archive_section_repeated (root : Section) :
  archivesToRoot this = false ->
  Settings.addNewlinesAroundHeadings (settings this) = false ->
  List.find (acceptsHeading this) (preorder root) = None ->
  archiveHeadingPattern this (sec_text (buildArchiveSection this)) = false ->
  let '(root1, _, _) := getArchiveSectionFromRoot this root in
  let '(root2, _, _) := getArchiveSectionFromRoot this root1 in
  root2 = appendChild (appendChild root (buildArchiveSection this))
            (buildArchiveSection this).
Proof.
  intros Hroot Hnl Hnone Hbuilt. unfold getArchiveSectionFromRoot.
  fold (archivesToRoot this). rewrite Hroot, Hnl. cbn [andb negb].
  rewrite findSectionRecursively_first. fold (acceptsHeading this). rewrite Hnone.
  rewrite findSectionRecursively_first. fold (acceptsHeading this).
  assert (Hnone2 : List.find (acceptsHeading this)
                     (preorder (appendChild root (buildArchiveSection this))) = None).
  { destruct (List.find (acceptsHeading this)
                (preorder (appendChild root (buildArchiveSection this))))
      as [[q found]|] eqn:Hfind; [|reflexivity].
    exfalso. apply find_some in Hfind. destruct Hfind as [Hin Hacc].
    simpl in Hin. destruct Hin as [[= <- <-]|Hin].
    - assert (Hin0 : In ([], root) (preorder root))
        by (destruct root; simpl; left; reflexivity).
      pose proof (find_none _ _ Hnone _ Hin0) as Hn.
      unfold acceptsHeading in Hn, Hacc. simpl in Hacc. congruence.
    - apply collectFrom_In in Hin. destruct Hin as (j & c & p' & -> & Hj & Hin).
      apply lookup_app_Some in Hj. destruct Hj as [Hj | [_ Hj]].
      + assert (Hin0 : In ((0 + j)%nat :: p', found) (preorder root)).
        { destruct root as [t l b cs]. simpl. right. apply collectFrom_In.
          exists j, c, p'. auto. }
        pose proof (find_none _ _ Hnone _ Hin0) as Hn.
        unfold acceptsHeading in Hn, Hacc. congruence.
      + apply list_lookup_singleton_Some in Hj. destruct Hj as [_ <-].
        simpl in Hin. destruct Hin as [[= <- <-]|[]].
        unfold acceptsHeading in Hacc. unfold buildArchiveSection in Hbuilt, Hacc.
        simpl in Hbuilt, Hacc. congruence. }
  rewrite Hnone2. reflexivity.
Qed.

End ArchiveSection.

(** ** [Promise.all] *)

Section PromiseAll.

Context {World : Type}.
Variable perform : forall X : Type, Op X -> World -> Result X * World.

Lemma rejectionKept_snoc (done : list (Proc unit)) (first : option Error)
  (job : Proc unit) :
  rejectionKept done first ->
  rejectionKept (done ++ [job]) (noteRejection first job).
Proof.
  destruct first as [e|]; simpl; intros H.
  - apply Exists_app. left. exact H.
  - unfold rejectionKept. destruct (rejection job) as [e|] eqn:Hj.
    + apply Exists_app. right. constructor. exact Hj.
    + apply Forall_app. split; [exact H|]. constructor; [exact Hj | constructor].
Qed.

Lemma rejectionKept_insert (jobs : list (Proc unit)) (first : option Error)
  (i : nat) (job job' : Proc unit) :
  jobs !! i = Some job ->
  (rejection job <> None -> job' = job) ->
  rejectionKept jobs first ->
  rejectionKept (<[i := job']> jobs) (noteRejection first job').
Proof.
  intros Hi Hkeep. destruct first as [e|]; simpl.
  - intros H. apply Exists_exists in H. destruct H as (x & Hx & Hrej).
    apply list_elem_of_lookup in Hx. destruct Hx as [k Hk].
    apply Exists_exists. exists x. split; [|exact Hrej].
    apply list_elem_of_lookup. exists k.
    destruct (decide (i = k)) as [->|Hne].
    + assert (x = job) as -> by congruence.
      rewrite Hkeep by congruence.
      rewrite list_lookup_insert_eq; [reflexivity|]. eapply lookup_lt_Some; exact Hk.
    + rewrite list_lookup_insert_ne by exact Hne. exact Hk.
  - intros H. unfold rejectionKept. destruct (rejection job') as [e|] eqn:Hj.
    + apply Exists_exists. exists job'. split; [|exact Hj].
      apply list_elem_of_lookup. exists i.
      apply list_lookup_insert_eq. eapply lookup_lt_Some; exact Hi.
    + apply Forall_insert; assumption.
Qed.

Lemma resume_settled (job : Proc unit) (s : St World) :
  rejection job <> None -> fst (resume perform job s) = job.
Proof. destruct job; simpl; congruence. Qed.

Lemma finish_settled (job : Proc unit) (s : St World) :
  rejection job <> None -> fst (finish perform job s) = job.
Proof. destruct job; simpl; congruence. Qed.

Lemma finish_ends (job : Proc unit) (s : St World) :
  settled (fst (finish perform job s)) = true.
Proof. unfold finish. destruct (run perform job s) as [[[]|e] s']; reflexivity. Qed.

Lemma startAll_spec (jobs : list (Proc unit)) :
  forall (done : list (Proc unit)) (first : option Error) (s : St World),
    rejectionKept done first ->
    let '(jobs', first', _) := startAll perform jobs first s in
    length jobs' = length jobs /\ rejectionKept (done ++ jobs') first'.
Proof.
  induction jobs as [|job rest IH]; intros done first s Hdone; simpl.
  - rewrite app_nil_r. auto.
  - destruct (advance perform job s) as [job' s1].
    specialize (IH (done ++ [job']) (noteRejection first job') s1
                  (rejectionKept_snoc _ _ _ Hdone)).
    destruct (startAll perform rest (noteRejection first job') s1) as [[rest' first'] s2].
    destruct IH as [Hlen Hinv]. rewrite <- app_assoc in Hinv.
    simpl. auto.
Qed.

Lemma eventLoop_spec (schedule : list nat) :
  forall (jobs : list (Proc unit)) (first : option Error) (s : St World),
    rejectionKept jobs first ->
    let '(jobs', first', _) := eventLoop perform schedule jobs first s in
    length jobs' = length jobs /\ rejectionKept jobs' first'.
Proof.
  induction schedule as [|i schedule IH]; intros jobs first s Hinv; simpl; [auto|].
  destruct (jobs !! i) as [job|] eqn:Hi; [|apply IH; exact Hinv].
  pose proof (resume_settled job s) as Hkeep.
  destruct (resume perform job s) as [job' s1]. simpl in Hkeep.
  specialize (IH (<[i := job']> jobs) (noteRejection first job') s1
                (rejectionKept_insert _ _ _ _ _ Hi Hkeep Hinv)).
  destruct (eventLoop perform schedule _ _ s1) as [[jobs' first'] s2].
  rewrite length_insert in IH. exact IH.
Qed.

Lemma drain_spec (jobs : list (Proc unit)) :
  forall (done : list (Proc unit)) (first : option Error) (s : St World),
    rejectionKept (done ++ jobs) first ->
    let '(jobs', first', _) := drain perform jobs first s in
    length jobs' = length jobs
    /\ Forall (fun job => settled job = true) jobs'
    /\ rejectionKept (done ++ jobs') first'.
Proof.
  induction jobs as [|job rest IH]; intros done first s Hinv; simpl; [auto|].
  pose proof (finish_settled job s) as Hkeep.
  pose proof (finish_ends job s) as Hend.
  destruct (finish perform job s) as [job' s1]. simpl in Hkeep, Hend.
  assert (Hat : (done ++ job :: rest) !! length done = Some job)
    by (rewrite lookup_app_r by lia; rewrite Nat.sub_diag; reflexivity).
  pose proof (rejectionKept_insert _ _ _ _ _ Hat Hkeep Hinv) as Hinv'.
  rewrite insert_app_r_alt in Hinv' by lia. rewrite Nat.sub_diag in Hinv'.
  simpl in Hinv'. change (done ++ job' :: rest) with (done ++ [job'] ++ rest) in Hinv'.
  rewrite app_assoc in Hinv'.
  specialize (IH (done ++ [job']) (noteRejection first job') s1 Hinv').
  destruct (drain perform rest (noteRejection first job') s1) as [[rest' first'] s2].
  destruct IH as (Hlen & Hall & Hfinal). rewrite <- app_assoc in Hfinal.
  simpl. auto.
Qed.

End PromiseAll.

(** ** The batch in time *)

Section Settlements.

Context {World : Type}.
Variable perform : forall X : Type, Op X -> World -> Result X * World.

Lemma run_advance {A} (p : Proc A) (s : St World) :
  run perform (fst (advance perform p s)) (snd (advance perform p s)) = run perform p s.
Proof.
  revert s. induction p as [a|e|X op k IH|X op k IH]; intros s; try reflexivity.
  simpl. destruct (exec perform op s) as [[x|e] s']; [apply IH | reflexivity].
Qed.

Lemma advance_notCall {A} (p : Proc A) (s : St World) :
  notCall (fst (advance perform p s)) = true.
Proof.
  revert s. induction p as [a|e|X op k IH|X op k IH]; intros s; try reflexivity.
  simpl. destruct (exec perform op s) as [[x|e] s']; [apply IH | reflexivity].
Qed.

Lemma resume_notCall {A} (p : Proc A) (s : St World) :
  notCall p = true -> notCall (fst (resume perform p s)) = true.
Proof.
  destruct p as [a|e|X op k|X op k]; try (intros; reflexivity); [discriminate|].
  intros _. simpl. destruct (exec perform op s) as [[x|e] s'];
    [apply advance_notCall | reflexivity].
Qed.

Lemma advance_at_await {A} (p : Proc A) (s : St World) :
  notCall p = true -> advance perform p s = (p, s).
Proof. destruct p; try reflexivity. discriminate. Qed.

Lemma finish_advance (p : Proc unit) (s : St World) :
  finish perform (fst (advance perform p s)) (snd (advance perform p s))
  = finish perform p s.
Proof. unfold finish. rewrite run_advance. reflexivity. Qed.

Lemma batchSteps_trans (jobs1 jobs2 jobs3 : list (Proc unit))
  (first1 first2 first3 : option Error) (s1 s2 s3 : St World) :
  batchSteps perform jobs1 first1 s1 jobs2 first2 s2 ->
  batchSteps perform jobs2 first2 s2 jobs3 first3 s3 ->
  batchSteps perform jobs1 first1 s1 jobs3 first3 s3.
Proof.
  induction 1 as [|jobs first s i X op k job' sa jobs' first' s' Hi Hres _ IH];
    intros H23; [exact H23|].
  eapply batch_settle; [exact Hi | exact Hres | apply IH; exact H23].
Qed.

Lemma noteRejection_settled (first : option Error) (job : Proc unit) :
  (rejection job <> None -> first <> None) -> noteRejection first job = first.
Proof.
  destruct first as [e|]; [reflexivity|]. simpl.
  destruct (rejection job); [|reflexivity].
  intros H. exfalso. apply H; [discriminate | reflexivity].
Qed.

(** A job that is started runs to its end by settlements of its own. *)
Lemma steps_to_end (p : Proc unit) :
  forall (jobs : list (Proc unit)) (i : nat) (first : option Error) (s : St World),
    jobs !! i = Some (fst (advance perform p s)) ->
    (rejection (fst (advance perform p s)) <> None -> first <> None) ->
    batchSteps perform jobs first (snd (advance perform p s))
      (<[i := fst (finish perform p s)]> jobs)
      (noteRejection first (fst (finish perform p s)))
      (snd (finish perform p s)).
Proof.
  induction p as [[]|e|X op k IH|X op k IH]; intros jobs i first s Hi Hfirst.
  - simpl in *. rewrite (list_insert_id _ _ _ Hi).
    rewrite noteRejection_settled by (simpl; congruence). apply batch_rest.
  - simpl in *. rewrite (list_insert_id _ _ _ Hi).
    rewrite noteRejection_settled by exact Hfirst. apply batch_rest.
  - unfold finish in *. simpl in *.
    destruct (exec perform op s) as [[x|e] s1].
    + apply IH; assumption.
    + simpl in *. rewrite (list_insert_id _ _ _ Hi).
      rewrite noteRejection_settled by exact Hfirst. apply batch_rest.
  - simpl in Hi, Hfirst. simpl advance. cbn [fst snd].
    pose proof (lookup_lt_Some _ _ _ Hi) as Hlt.
    unfold finish. simpl run.
    destruct (exec perform op s) as [[x|e] s1] eqn:Hexec.
    + eapply (batch_settle perform jobs first s i op k
                (fst (advance perform (k x) s1)) (snd (advance perform (k x) s1)));
        [exact Hi | simpl; rewrite Hexec; apply surjective_pairing|].
      specialize (IH x (<[i := fst (advance perform (k x) s1)]> jobs) i
                    (match first with
                     | Some e => Some e
                     | None => rejection (fst (advance perform (k x) s1))
                     end) s1).
      rewrite list_insert_insert_eq in IH.
      assert (Hnote :
               noteRejection
                 (match first with
                  | Some e => Some e
                  | None => rejection (fst (advance perform (k x) s1))
                  end) (fst (finish perform (k x) s1))
               = noteRejection first (fst (finish perform (k x) s1))).
      { destruct first as [e|]; [reflexivity|].
        destruct (rejection (fst (advance perform (k x) s1))) as [e|] eqn:Hrej;
          [|reflexivity].
        rewrite <- finish_advance.
        destruct (fst (advance perform (k x) s1)); try discriminate.
        injection Hrej as ->. reflexivity. }
      rewrite Hnote in IH. unfold finish in IH.
      apply IH.
      * apply list_lookup_insert_eq. exact Hlt.
      * destruct first; [discriminate|]. intros H. exact H.
    + eapply (batch_settle perform jobs first s i op k (Throw e) s1);
        [exact Hi | simpl; rewrite Hexec; reflexivity|].
      simpl.
      replace (match first with Some e0 => Some e0 | None => Some e end)
        with (noteRejection first (Throw e : Proc unit)) by reflexivity.
      apply batch_rest.
Qed.

Lemma rejection_noted (jobs : list (Proc unit)) (first : option Error)
  (i : nat) (job : Proc unit) :
  rejectionKept jobs first -> jobs !! i = Some job ->
  rejection job <> None -> first <> None.
Proof.
  intros Hinv Hi Hrej ->. simpl in Hinv. rewrite Forall_forall in Hinv.
  apply Hrej, Hinv. eapply list_elem_of_lookup_2. exact Hi.
Qed.

Lemma eventLoop_steps (schedule : list nat) :
  forall (jobs : list (Proc unit)) (first : option Error) (s : St World),
    rejectionKept jobs first ->
    let '(jobs', first', s') := eventLoop perform schedule jobs first s in
    batchSteps perform jobs first s jobs' first' s'.
Proof.
  induction schedule as [|i schedule IH]; intros jobs first s Hinv; simpl;
    [apply batch_rest|].
  destruct (jobs !! i) as [job|] eqn:Hi; [|apply IH; exact Hinv].
  pose proof (resume_settled perform job s) as Hkeep.
  destruct (resume perform job s) as [job' s1] eqn:Hres. simpl in Hkeep.
  pose proof (rejectionKept_insert _ _ _ _ _ Hi Hkeep Hinv) as Hinv'.
  specialize (IH (<[i := job']> jobs) (noteRejection first job') s1 Hinv').
  destruct (eventLoop perform schedule _ _ s1) as [[jobs' first'] s'].
  destruct job as [a|e|X op k|X op k].
  - simpl in Hres. injection Hres as <- <-.
    rewrite (list_insert_id _ _ _ Hi) in IH.
    rewrite noteRejection_settled in IH by (simpl; congruence). exact IH.
  - simpl in Hres. injection Hres as <- <-.
    rewrite (list_insert_id _ _ _ Hi) in IH.
    rewrite noteRejection_settled in IH
      by (intros _; exact (rejection_noted _ _ _ _ Hinv Hi ltac:(discriminate))).
    exact IH.
  - simpl in Hres. injection Hres as <- <-.
    rewrite (list_insert_id _ _ _ Hi) in IH.
    rewrite noteRejection_settled in IH by (simpl; congruence). exact IH.
  - eapply batch_settle; [exact Hi | exact Hres | exact IH].
Qed.

Lemma drain_steps (rest : list (Proc unit)) :
  forall (done : list (Proc unit)) (first : option Error) (s : St World),
    Forall (fun job => notCall job = true) rest ->
    rejectionKept (done ++ rest) first ->
    let '(rest', first', s') := drain perform rest first s in
    batchSteps perform (done ++ rest) first s (done ++ rest') first' s'.
Proof.
  induction rest as [|job rest IH]; intros done first s Hall Hinv; simpl;
    [apply batch_rest|].
  inversion Hall as [|? ? Hjob Hrest]; subst.
  assert (Hat : (done ++ job :: rest) !! length done = Some job)
    by (rewrite lookup_app_r by lia; rewrite Nat.sub_diag; reflexivity).
  pose proof (finish_settled perform job s) as Hkeep.
  pose proof (steps_to_end job (done ++ job :: rest) (length done) first s) as Hsteps.
  rewrite (advance_at_await job s Hjob) in Hsteps. cbn [fst snd] in Hsteps.
  specialize (Hsteps Hat (rejection_noted _ _ _ _ Hinv Hat)).
  destruct (finish perform job s) as [job' s1]. cbn [fst snd] in Hsteps, Hkeep.
  pose proof (rejectionKept_insert _ _ _ _ _ Hat Hkeep Hinv) as Hinv'.
  rewrite insert_app_r_alt in Hsteps, Hinv' by lia.
  rewrite Nat.sub_diag in Hsteps, Hinv'. simpl in Hsteps, Hinv'.
  change (done ++ job' :: rest) with (done ++ [job'] ++ rest) in Hsteps, Hinv'.
  rewrite app_assoc in Hsteps, Hinv'.
  specialize (IH (done ++ [job']) (noteRejection first job') s1 Hrest Hinv').
  destruct (drain perform rest (noteRejection first job') s1) as [[rest' first'] s'].
  rewrite <- !app_assoc in IH. rewrite <- app_assoc in Hsteps.
  eapply batchSteps_trans; [exact Hsteps | exact IH].
Qed.

Lemma startAll_started (jobs : list (Proc unit)) :
  forall (first : option Error) (s : St World),
    let '(started, first', _) := startAll perform jobs first s in
    Forall (fun job => notCall job = true) started
    /\ first' = match first with
                | Some e => Some e
                | None => firstRejected started
                end
    /\ forall i job,
        jobs !! i = Some job ->
        exists si, started !! i = Some (fst (advance perform job si)).
Proof.
  induction jobs as [|job rest IH]; intros first s; simpl.
  - split; [constructor|]. split; [destruct first; reflexivity|].
    intros i job H. discriminate.
  - pose proof (advance_notCall job s) as Hjob.
    destruct (advance perform job s) as [job' s1] eqn:Hadv. simpl in Hjob.
    specialize (IH (noteRejection first job') s1).
    destruct (startAll perform rest (noteRejection first job') s1)
      as [[rest' first'] s2].
    destruct IH as (Hall & Hfirst & Hstarted).
    split; [constructor; assumption|]. split.
    + rewrite Hfirst. destruct first as [e|]; [reflexivity|]. simpl.
      destruct (rejection job'); reflexivity.
    + intros [|i] job0 Hi; simpl in Hi.
      * injection Hi as <-. exists s. rewrite Hadv. reflexivity.
      * apply Hstarted. exact Hi.
Qed.

Lemma eventLoop_notCall (schedule : list nat) :
  forall (jobs : list (Proc unit)) (first : option Error) (s : St World),
    Forall (fun job => notCall job = true) jobs ->
    Forall (fun job => notCall job = true)
      (fst (fst (eventLoop perform schedule jobs first s))).
Proof.
  induction schedule as [|i schedule IH]; intros jobs first s Hall; simpl;
    [exact Hall|].
  destruct (jobs !! i) as [job|] eqn:Hi; [|apply IH; exact Hall].
  pose proof (resume_notCall job s) as Hjob.
  destruct (resume perform job s) as [job' s1]. simpl in Hjob.
  apply IH. apply Forall_insert; [exact Hall|]. apply Hjob.
  rewrite Forall_forall in Hall. apply Hall.
  eapply list_elem_of_lookup_2. exact Hi.
Qed.

(** The batch, in time: every job is started, the jobs then go on by
    settlements of their own awaited promises until each one is at its
    end, and the error kept is the earliest rejection. *)
Lemma runAll_steps (schedule : list nat) (jobs : list (Proc unit)) (s : St World) :
  let '(started, first0, s0) := startAll perform jobs None s in
  let '(final, first, s') := runAll perform schedule jobs s in
  (forall i job,
      jobs !! i = Some job ->
      exists si, started !! i = Some (fst (advance perform job si)))
  /\ first0 = firstRejected started
  /\ batchSteps perform started first0 s0 final first s'
  /\ length final = length jobs
  /\ Forall (fun job => settled job = true) final.
Proof.
  unfold runAll.
  pose proof (startAll_started jobs None s) as H0.
  pose proof (startAll_spec perform jobs [] None s (Forall_nil_2 _)) as H1.
  destruct (startAll perform jobs None s) as [[started first0] s0].
  destruct H0 as (Hcall0 & Hfirst0 & Hstarted).
  destruct H1 as [Hlen1 Hinv1]. simpl in Hinv1.
  pose proof (eventLoop_spec perform schedule started first0 s0 Hinv1) as H2.
  pose proof (eventLoop_steps schedule started first0 s0 Hinv1) as Hloop.
  pose proof (eventLoop_notCall schedule started first0 s0 Hcall0) as Hcall1.
  destruct (eventLoop perform schedule started first0 s0) as [[looped first1] s1].
  destruct H2 as [Hlen2 Hinv2]. simpl in Hcall1.
  pose proof (drain_spec perform looped [] first1 s1 Hinv2) as H3.
  pose proof (drain_steps looped [] first1 s1 Hcall1 Hinv2) as Hdrain.
  destruct (drain perform looped first1 s1) as [[final first] s'].
  destruct H3 as (Hlen3 & Hall & _). simpl in Hdrain.
  split; [exact Hstarted|]. split; [exact Hfirst0|].
  split; [eapply batchSteps_trans; [exact Hloop | exact Hdrain]|].
  split; [congruence | exact Hall].
Qed.

End Settlements.

(** ** Grouping by archive path *)

Section Grouping.

Context {V : Type}.

Lemma addToGroup_keys (key : string) (v : V) (groups : list (string * list V)) :
  map fst (Lodash.addToGroup key v groups)
  = if existsb (String.eqb key) (map fst groups) then map fst groups
    else map fst groups ++ [key].
Proof.
  induction groups as [|[k vs] groups IH]; simpl; [reflexivity|].
  destruct (String.eqb key k); simpl; [reflexivity|].
  rewrite IH. destruct (existsb _ _); reflexivity.
Qed.

Lemma existsb_key (key : string) (keys : list string) :
  existsb (String.eqb key) keys = true <-> In key keys.
Proof.
  rewrite existsb_exists. split.
  - intros (k & Hin & Heq). apply String.eqb_eq in Heq. subst. exact Hin.
  - intros Hin. exists key. split; [exact Hin | apply String.eqb_refl].
Qed.

Lemma addToGroup_NoDup (key : string) (v : V) (groups : list (string * list V)) :
  List.NoDup (map fst groups) -> List.NoDup (map fst (Lodash.addToGroup key v groups)).
Proof.
  intros Hnd. rewrite addToGroup_keys.
  destruct (existsb _ _) eqn:Hex; [exact Hnd|].
  apply NoDup_ListNoDup, NoDup_app. apply NoDup_ListNoDup in Hnd.
  split; [exact Hnd|]. split; [|apply NoDup_singleton].
  intros k Hk Hk'. apply list_elem_of_singleton in Hk'. subst k.
  apply list_elem_of_In, existsb_key in Hk. congruence.
Qed.

Lemma addToGroup_In (key : string) (v : V) (groups : list (string * list V))
  (k : string) (vs : list V) :
  List.NoDup (map fst groups) ->
  In (k, vs) (Lodash.addToGroup key v groups)
  <-> (k <> key /\ In (k, vs) groups)
      \/ (k = key
          /\ ((exists old, In (key, old) groups /\ vs = old ++ [v])
              \/ (~ In key (map fst groups) /\ vs = [v]))).
Proof.
  induction groups as [|[k0 vs0] groups IH]; simpl; intros Hnd.
  - split.
    + intros [[= <- <-]|[]]. right. split; [reflexivity|]. right. auto.
    + intros [[_ []] | [-> [(old & [] & _) | [_ ->]]]]. left. reflexivity.
  - inversion Hnd as [|? ? Hnotin Hnd']; subst.
    destruct (String.eqb_spec key k0) as [->|Hne]; simpl.
    + split.
      * intros [[= <- <-] | Hin].
        -- right. split; [reflexivity|]. left. exists vs0. auto.
        -- left. split; [|auto]. intros ->. apply Hnotin.
           apply in_map_iff. exists (k0, vs). auto.
      * intros [[Hk [[= <- <-] | Hin]] | [-> [(old & [[= <-] | Hin] & ->) | [Hno _]]]];
          try congruence; auto.
        -- exfalso. apply Hnotin. apply in_map_iff. exists (k0, old). auto.
        -- exfalso. apply Hno. auto.
    + rewrite (IH Hnd'). split.
      * intros [[= <- <-] | [[Hk Hin] | [-> [(old & Hin & ->) | [Hno ->]]]]].
        -- left. split; [congruence | auto].
        -- left. auto.
        -- right. split; [reflexivity|]. left. exists old. auto.
        -- right. split; [reflexivity|]. right. split; [|reflexivity].
           intros [Heq | Hin]; [congruence | auto].
      * intros [[Hk [[= <- <-] | Hin]] | [-> [(old & [[= <- <-] | Hin] & ->) | [Hno ->]]]];
          try congruence; auto.
        -- right. right. split; [reflexivity|]. left. exists old. auto.
        -- right. right. split; [reflexivity|]. right. split; [|reflexivity].
           intros Hin. apply Hno. auto.
Qed.

Variable iteratee : V -> string.

Lemma groupBy_spec (xs : list V) :
  List.NoDup (map fst (Lodash.groupBy iteratee xs))
  /\ forall k vs,
      In (k, vs) (Lodash.groupBy iteratee xs) <-> vs <> [] /\ vs = List.filter (fun v => String.eqb (iteratee v) k) xs.
Proof.
  unfold Lodash.groupBy. induction xs as [|x xs IH] using rev_ind.
  - simpl. split; [constructor|]. intros k vs. split; [intros [] | intros [H ->]; congruence].
  - rewrite fold_left_app. cbn [fold_left].
    destruct IH as [Hnd IH]. split; [apply addToGroup_NoDup; exact Hnd|].
    intros k vs. rewrite (addToGroup_In _ _ _ _ _ Hnd).
    rewrite List.filter_app. cbn [List.filter].
    destruct (String.eqb_spec (iteratee x) k) as [Hk|Hk].
    + subst k. split.
      * intros [[Hne _] | [_ [(old & Hin & ->) | [Hno ->]]]]; [congruence| |].
        -- apply IH in Hin. destruct Hin as [_ ->].
           split; [destruct (List.filter _ xs); discriminate | reflexivity].
        -- split; [discriminate|].
           destruct (List.filter _ xs) as [|y ys] eqn:Hsel; [reflexivity|].
           exfalso. apply Hno. apply in_map_iff.
           exists (iteratee x, y :: ys). split; [reflexivity|].
           apply IH. split; [discriminate|]. congruence.
      * intros [_ ->]. right. split; [reflexivity|].
        destruct (List.filter _ xs) as [|y ys] eqn:Hsel.
        -- right. split; [|reflexivity]. intros Hin. apply in_map_iff in Hin.
           destruct Hin as ([k vs] & Hk & Hin). simpl in Hk. subst k.
           apply IH in Hin. rewrite Hsel in Hin.
           destruct Hin as [Hne ->]. congruence.
        -- left. exists (y :: ys). split; [|reflexivity].
           apply IH. split; [discriminate|]. congruence.
    + rewrite app_nil_r. split.
      * intros [[_ Hin] | [-> _]]; [apply IH; exact Hin | congruence].
      * intros H. left. split; [congruence | apply IH; exact H].
Qed.

Lemma insertByIndex_Permutation {W} (n : N) (entry : string * W)
  (sorted : list (N * (string * W))) :
  Permutation (Lodash.insertByIndex n entry sorted) ((n, entry) :: sorted).
Proof.
  induction sorted as [|[m e] sorted IH]; simpl; [reflexivity|].
  destruct (n <? m)%N; [reflexivity|].
  rewrite IH. apply perm_swap.
Qed.

Lemma toPairs_Permutation {W} (object : list (string * W)) :
  Permutation (Lodash.toPairs object) object.
Proof.
  unfold Lodash.toPairs. induction object as [|[k w] object IH]; simpl; [reflexivity|].
  destruct (Lodash.arrayIndex k) as [n|].
  - rewrite insertByIndex_Permutation. simpl. rewrite IH. reflexivity.
  - rewrite <- Permutation_middle. rewrite IH. reflexivity.
Qed.

End Grouping.

Section ArchivePaths.

Context {IS : Type} (this : Archiver IS).


Lemma mapValues_In {A B} (f : A -> B) (object : list (string * A)) (k : string) (w : B) :
  In (k, w) (Lodash.mapValues f object) <-> exists v, In (k, v) object /\ w = f v.
Proof.
  unfold Lodash.mapValues. rewrite in_map_iff. split.
  - intros ([k' v] & [= <- <-] & Hin). eauto.
  - intros (v & Hin & ->). exists (k, v). auto.
Qed.


Lemma archiveGroups_In (tasks : list BlockWithRule) (k : string) (ts : list Block) :
  In (k, ts) (archiveGroups this tasks) <-> ts <> [] /\ ts = tasksFor this k tasks.
Proof.
  unfold archiveGroups.
  match goal with
  | |- In _ (Lodash.toPairs ?o) <-> _ =>
      transitivity (In (k, ts) o);
      [split; apply Permutation_in;
       [apply toPairs_Permutation | symmetry; apply toPairs_Permutation]|]
  end.
  rewrite mapValues_In.
  assert (Hsel : forall l : list BlockWithRule,
             map fst (List.filter (fun v : Block * string => String.eqb (snd v) k)
                        (map (fun '(mkBlockWithRule task rule) =>
                                (task, archivePathOf this rule)) l))
             = map task (List.filter
                           (fun t => String.eqb (archivePathOf this (rule t)) k) l)).
  { induction l as [|[t r] l IHl]; simpl; [reflexivity|].
    destruct (String.eqb _ k); simpl; rewrite IHl; reflexivity. }
  assert (Hprep : map (fun taskWithRule => appendMetadata this taskWithRule)
                    (map (fun '(mkBlockWithRule task rule) =>
                            {| task := replaceText this task; rule := rule |}) tasks)
                  = prepared this tasks).
  { unfold prepared. rewrite map_map. apply map_ext. intros [t r]. reflexivity. }
  rewrite Hprep. unfold tasksFor. rewrite <- Hsel. split.
  - intros (v & Hin & ->). apply groupBy_spec in Hin. destruct Hin as [Hne ->].
    split; [|reflexivity]. intros Hnil. apply map_eq_nil in Hnil. congruence.
  - intros [Hne ->]. eexists. split; [|reflexivity]. apply groupBy_spec.
    split; [|reflexivity]. intros Hnil. apply Hne. rewrite Hnil. reflexivity.
Qed.


End ArchivePaths.

(** ** Failure of a destination *)

Section Batches.

Context {IS : Type} (this : Archiver IS).
Context {World : Type}.
Variable perform : forall X : Type, Op X -> World -> Result X * World.
Variable schedule : list nat.

(** C8, as the code has it.  There is one job for each archive path and
    every one of them is started: it runs to its first [await].  From
    there the batch goes on by settlements, each of which lets one
    pending job go on, until every job is at its end: a rejection stops
    no other job.  The operation fails with the earliest rejection, that
    of the first job rejected at the start or else of the first
    settlement that leaves a job rejected, and its result keeps no record
    of the destinations that succeeded. *)
Theorem batch_failure_aborts_nothing (tasks : list BlockWithRule)
  (activeFile : ActiveFile) (s : St World) :
  let jobs := archiveJobs this tasks activeFile in
  let '(started, first0, s0) := startAll perform jobs None s in
  let '(final, first, s') := runAll perform schedule jobs s in
  archiveTasks this World perform schedule tasks activeFile s
  = (match first with Some e => Err e | None => Ok tt end, s')
  /\ length jobs = length (archiveGroups this tasks)
  /\ (forall i job,
        jobs !! i = Some job ->
        exists si, started !! i = Some (fst (advance perform job si)))
  /\ first0 = firstRejected started
  /\ batchSteps perform started first0 s0 final first s'
  /\ length final = length jobs
  /\ Forall (fun job => settled job = true) final.
Proof.
  intros jobs.
  pose proof (runAll_steps perform schedule jobs s) as H.
  unfold archiveTasks, promiseAll. fold jobs.
  destruct (startAll perform jobs None s) as [[started first0] s0].
  destruct (runAll perform schedule jobs s) as [[final first] s'].
  split; [reflexivity|].
  split; [unfold jobs, archiveJobs; apply length_map | exact H].
Qed.

(** C9: the task under the cursor is archived with the default rule as
    the block that the parser gives for it, its children as they are and
    its text the result of [completeTask].  That replaces the first "[ ]"
    of the text by "[x]" and nothing else; a text without "[ ]" is left as
    it is, and the task is archived all the same. *)
Theorem cursor_task_completion (s s1 s2 s3 : St World) (range : Range)
  (text : string) (block : Block) (rest : list Block) :
  exec perform detectListItemUnderCursor s = (Ok (Some range), s1) ->
  exec perform (getRange range) s1 = (Ok text, s2) ->
  exec perform (replaceRange "" range) s2 = (Ok tt, s3) ->
  block_children (blockContent (parse this (JsString.split "010" text)))
  = block :: rest ->
  archiveTaskUnderCursor this World perform schedule s
  = (_ <- archiveTasks this World perform schedule
            [{| task := mkBlock (completeTask (block_text block))
                          (block_children block);
                rule := getDefaultRule this |}]
            EditorFile ;;
     run perform (call (setCursor (fst range))))%op s3
  /\ (JsString.includes (block_text block) "[ ]" = true ->
      exists pre post,
        block_text block = pre +:+ "[ ]" +:+ post
        /\ (forall i, (i < String.length pre)%nat ->
                      JsString.startsWith "[ ]" (JsString.drop i (block_text block))
                      = false)
        /\ completeTask (block_text block) = pre +:+ "[x]" +:+ post)
  /\ (JsString.includes (block_text block) "[ ]" = false ->
      mkBlock (completeTask (block_text block)) (block_children block) = block).
Proof.
  intros Hdetect Hget Hreplace Hparsed. split; [|split].
  - unfold archiveTaskUnderCursor, M_bind. simpl run.
    rewrite Hdetect. simpl. rewrite Hget. simpl. rewrite Hreplace.
    rewrite Hparsed. reflexivity.
  - intros Hin. apply replace_first. exact Hin.
  - intros Hout. unfold completeTask. rewrite (replace_absent _ _ _ Hout).
    destruct block. reflexivity.
Qed.

End Batches.

(** ** The scenarios *)

Import Scenario.

(** C1, at a note whose closed item carries a keyword and no checkbox: the
    operation fails, and the item is gone from the note. *)
Lemma unparsed_status_is_fatal_witness :
  Settings.rules (settings (Double.archiver Double.doneKeyword [doneRule])) <> []
  /\ archiveShallowTasksInActiveFile (Double.archiver Double.doneKeyword [doneRule])
       RefHost.World RefHost.perform [] EditorFile (Double.note keywordNote, [])
     = (Err (TypeError "null is not iterable"),
        (Double.note ["# Log"; "- [ ] task A"],
         [Performed (readLines EditorFile) true;
          Performed (writeLines EditorFile ["# Log"; "- [ ] task A"]) true])).
Proof.
  split; [discriminate|].
  apply (unparsed_status_is_fatal (Double.archiver Double.doneKeyword [doneRule])
           RefHost.perform [] EditorFile shallowExtractBlocks
           (Double.note keywordNote, []) keywordNote (Double.note keywordNote)
           (Double.note ["# Log"; "- [ ] task A"])
           [mkBlock "- DONE task B" []]
           (mkSection "" 0 RootBlock
              [mkSection " Log" 1 (mkBlock "" [mkBlock "- [ ] task A" []]) []])).
  - reflexivity.
  - reflexivity.
  - reflexivity.
  - discriminate.
  - constructor. reflexivity.
Defined.

(** C2, at the note of the specification. *)
Lemma archive_report_witness :
  archiveShallowTasksInActiveFile (Double.archiver Double.checked [])
    RefHost.World RefHost.perform [] EditorFile (Double.note logNote, [])
  = (Ok "Archived 1 tasks",
     (Double.note ["# Log"; "- [ ] task A"; "## Archived"; "- [x] task B"],
      [Performed (readLines EditorFile) true;
       Performed (writeLines EditorFile ["# Log"; "- [ ] task A"]) true;
       Performed (readLines EditorFile) true;
       Performed (writeLines EditorFile
                    ["# Log"; "- [ ] task A"; "## Archived"; "- [x] task B"]) true]))
  /\ exists lines w1,
      RefHost.perform _ (readLines EditorFile) (Double.note logNote) = (Ok lines, w1)
      /\ let extracted :=
           fst (extractBlocksRecursively
                  (parse (Double.archiver Double.checked []) lines)
                  (taskFilter (Double.archiver Double.checked []))
                  shallowExtractBlocks) in
         (extracted = [] -> "Archived 1 tasks" = "No tasks to archive")
         /\ (extracted <> [] ->
             "Archived 1 tasks"
             = "Archived " +:+ JsString.ofNat (length extracted) +:+ " tasks").
Proof.
  split; [reflexivity|].
  exact (archive_report (Double.archiver Double.checked []) RefHost.perform []
           EditorFile shallowExtractBlocks (Double.note logNote, []) _ _ eq_refl).
Defined.

(** C4, at a task checked with [x] and the rules for [x] and [-]. *)
Lemma rule_selection_witness :
  getTaskStatus (mkBlock "- [x] pay rent" []) = Ok "x"
  /\ withRule (Double.archiver Double.anyMark [droppedRule; doneRule])
       (mkBlock "- [x] pay rent" [])
     = Ok {| task := mkBlock "- [x] pay rent" []; rule := doneRule |}.
Proof.
  split; [reflexivity|].
  destruct (rule_selection (Double.archiver Double.anyMark [droppedRule; doneRule])
              (mkBlock "- [x] pay rent" []) "x" eq_refl)
    as (marker & Hmarker & Hrule & _).
  injection Hmarker as <-. exact Hrule.
Defined.

(** C3, as the claim states it, fails for the deep mode: in a note with a
    checked item under an item that is not, the deletion takes nothing out,
    where the deep extraction takes the nested item. *)
Lemma deletion_ignores_deep_mode : ~ deletionExtractsLike deepExtractBlocks.
Proof.
  intros H.
  destruct (H string (Double.archiver Double.checked []) RefHost.World
              RefHost.perform EditorFile (Double.note nestedNote, [])) as [_ Hreport].
  vm_compute in Hreport. discriminate Hreport.
Qed.

(** C8, as the claim states it, fails: the write to the first destination
    is refused, which fails the operation; the read of the second
    destination settles after that, and the second destination is then
    written. *)
Lemma write_after_failed_write :
  let '(result, (world, trace)) :=
    archiveShallowTasksInActiveFile (Double.archiver Double.anyMark [doneRule; droppedRule])
      RefHost.World RefHost.perform [0; 0; 1; 1]%nat EditorFile (twoDestinations, []) in
  result = Err (HostError "file is read-only")
  /\ writeAfterFailure trace
  /\ trace
     = [Performed (readLines EditorFile) true;
        Performed (writeLines EditorFile []) true;
        Performed (getAbstractFileByPath "Done.md") true;
        Performed (getAbstractFileByPath "Dropped.md") true;
        Performed (readLines (DiskFile (mkTFile "Done.md"))) true;
        Performed (writeLines (DiskFile (mkTFile "Done.md"))
                     [""; "## Archived"; "- [x] pay rent"]) false;
        Performed (readLines (DiskFile (mkTFile "Dropped.md"))) true;
        Performed (writeLines (DiskFile (mkTFile "Dropped.md"))
                     [""; "## Archived"; "- [-] call bank"]) true]
  /\ RefHost.vault world !! "Dropped.md"
     = Some (RefHost.File [""; "## Archived"; "- [-] call bank"]).
Proof.
  vm_compute. split; [reflexivity|]. split; [|split; reflexivity].
  unfold writeAfterFailure.
  eexists (_ :: _ :: _ :: _ :: _ :: []), [], [], [], _, _, _, _, _.
  reflexivity.
Qed.

(** C9, at an open item and at a cancelled one.  The open item has two
    "[ ]": the first becomes "[x]", the second stays, and the item is
    archived under the heading of the default rule.  The text of the
    cancelled item has no "[ ]" and is archived as it is. *)
Lemma cursor_task_completion_witness :
  (archiveTaskUnderCursor (Double.archiver Double.checked []) RefHost.World
     RefHost.perform [] (openItem, [])
   = (Ok tt,
      (RefHost.setEditorLines
         [""; "- [-] cancelled"; "## Archived"; "- [x] open [ ] twice"]
         (RefHost.setCursorPos (mkPosition 0 0) openItem),
       [Performed detectListItemUnderCursor true;
        Performed (getRange (mkPosition 0 0, mkPosition 0 20)) true;
        Performed (replaceRange "" (mkPosition 0 0, mkPosition 0 20)) true;
        Performed (readLines EditorFile) true;
        Performed (writeLines EditorFile
                     [""; "- [-] cancelled"; "## Archived"; "- [x] open [ ] twice"])
          true;
        Performed (setCursor (mkPosition 0 0)) true]))
   /\ exists pre post,
       "- [ ] open [ ] twice" = pre +:+ "[ ]" +:+ post
       /\ (forall i, (i < String.length pre)%nat ->
                     JsString.startsWith "[ ]" (JsString.drop i "- [ ] open [ ] twice")
                     = false)
       /\ completeTask "- [ ] open [ ] twice" = pre +:+ "[x]" +:+ post)
  /\ (archiveTaskUnderCursor (Double.archiver Double.checked []) RefHost.World
        RefHost.perform [] (cancelledItem, [])
      = (Ok tt,
         (RefHost.setEditorLines [""; "- [ ] open"; "## Archived"; "- [-] cancelled"]
            (RefHost.setCursorPos (mkPosition 0 0) cancelledItem),
          [Performed detectListItemUnderCursor true;
           Performed (getRange (mkPosition 0 0, mkPosition 0 15)) true;
           Performed (replaceRange "" (mkPosition 0 0, mkPosition 0 15)) true;
           Performed (readLines EditorFile) true;
           Performed (writeLines EditorFile
                        [""; "- [ ] open"; "## Archived"; "- [-] cancelled"]) true;
           Performed (setCursor (mkPosition 0 0)) true]))
      /\ mkBlock (completeTask "- [-] cancelled") [] = mkBlock "- [-] cancelled" []).
Proof.
  split.
  - destruct (cursor_task_completion (Double.archiver Double.checked [])
                RefHost.perform [] (openItem, []) _ _ _
                (mkPosition 0 0, mkPosition 0 20) "- [ ] open [ ] twice"
                (mkBlock "- [ ] open [ ] twice" []) []
                eq_refl eq_refl eq_refl eq_refl) as (Hrun & Hfirst & _).
    split; [rewrite Hrun; reflexivity | exact (Hfirst eq_refl)].
  - destruct (cursor_task_completion (Double.archiver Double.checked [])
                RefHost.perform [] (cancelledItem, []) _ _ _
                (mkPosition 0 0, mkPosition 0 15) "- [-] cancelled"
                (mkBlock "- [-] cancelled" []) []
                eq_refl eq_refl eq_refl eq_refl) as (Hrun & _ & Hsame).
    split; [rewrite Hrun; reflexivity | exact (Hsame eq_refl)].
Defined.

(** The sentinel as an archive path: the task of a rule for a separate
    file named "current-file" lands in the note, and the vault stays
    empty. *)
Example sentinel_path_goes_to_the_note :
  archiveShallowTasksInActiveFile (Double.archiver Double.checked [sentinelRule])
    RefHost.World RefHost.perform [] EditorFile (Double.note logNote, [])
  = (Ok "Archived 1 tasks",
     (Double.note ["# Log"; "- [ ] task A"; "## Archived"; "- [x] task B"],
      [Performed (readLines EditorFile) true;
       Performed (writeLines EditorFile ["# Log"; "- [ ] task A"]) true;
       Performed (readLines EditorFile) true;
       Performed (writeLines EditorFile
                    ["# Log"; "- [ ] task A"; "## Archived"; "- [x] task B"]) true])).
Proof. reflexivity. Qed.

(** A heading three levels deep, moved under an archive Section of level
    2: its levels 1, 2, 3 become 3, 4, 5. *)
Example moved_project_levels :
  appendToArchive (Double.archiver Double.checked []) (Some project)
    (Double.parseLines logNote)
  = Ok (tt,
        mkSection "" 0 RootBlock
          [mkSection " Log" 1
             (mkBlock "" [mkBlock "- [ ] task A" []; mkBlock "- [x] task B" []]) [];
           mkSection " Archived" 2 RootBlock
             [mkSection " Project" 3 RootBlock
                [mkSection " Plan" 4 RootBlock
                   [mkSection " Steps" 5 RootBlock []]]]]).
Proof. reflexivity. Qed.

(** The keys of an object: the array indices first, in ascending order. *)
Example toPairs_order :
  Lodash.toPairs [("current-file", 1%nat); ("2024", 2%nat); ("Done", 3%nat); ("7", 4%nat)]
  = [("7", 4%nat); ("2024", 2%nat); ("current-file", 1%nat); ("Done", 3%nat)].
Proof. reflexivity. Qed.

Example ofNat_12 : JsString.ofNat 12 = "12".
Proof. reflexivity. Qed.

(** ** Paths of files *)

Lemma split_cons (sep : ascii) (s : string) :
  exists node nodes, JsString.split sep s = node :: nodes.
Proof.
  destruct s as [|c s]; simpl; [eauto|].
  destruct (Ascii.eqb c sep); [eauto|].
  destruct (JsString.split sep s); eauto.
Qed.

Lemma join_cons (sep node : string) (nodes : list string) :
  nodes <> [] ->
  JsString.join sep (node :: nodes) = node +:+ sep +:+ JsString.join sep nodes.
Proof. destruct nodes; [congruence | reflexivity]. Qed.

Lemma append_assoc (a b c : string) : (a +:+ b) +:+ c = a +:+ (b +:+ c).
Proof. induction a as [|x a IH]; [reflexivity|]. rewrite !append_cons, IH. reflexivity. Qed.

Lemma append_empty (a : string) : a +:+ "" = a.
Proof. induction a as [|x a IH]; [reflexivity|]. rewrite append_cons, IH. reflexivity. Qed.

Lemma join_snoc (sep last : string) (nodes : list string) :
  nodes <> [] ->
  JsString.join sep (nodes ++ [last]) = JsString.join sep nodes +:+ sep +:+ last.
Proof.
  induction nodes as [|node nodes IH]; [congruence|]. intros _.
  destruct nodes as [|node' nodes]; [reflexivity|].
  change ((node :: node' :: nodes) ++ [last]) with (node :: (node' :: nodes) ++ [last]).
  rewrite join_cons by discriminate. rewrite IH by discriminate.
  rewrite (join_cons sep node (node' :: nodes)) by discriminate.
  rewrite !append_assoc. reflexivity.
Qed.

(** Joining what was split gives the string back. *)
Lemma join_split (sep : ascii) (s : string) :
  JsString.join (String sep EmptyString) (JsString.split sep s) = s.
Proof.
  induction s as [|c s IH]; [reflexivity|]. simpl.
  destruct (split_cons sep s) as (node & nodes & Hs). rewrite Hs in *.
  destruct (Ascii.eqb_spec c sep) as [->|Hne].
  - rewrite join_cons by discriminate. rewrite IH. reflexivity.
  - destruct nodes as [|node' nodes].
    + simpl in *. congruence.
    + rewrite join_cons by discriminate. rewrite join_cons in IH by discriminate.
      rewrite append_cons. f_equal. exact IH.
Qed.

Lemma split_nodes (sep : ascii) (s : string) :
  Forall (fun node => JsString.includes node (String sep EmptyString) = false)
    (JsString.split sep s).
Proof.
  induction s as [|c s IH]; simpl.
  - constructor; [reflexivity | constructor].
  - destruct (split_cons sep s) as (node & nodes & Hs). rewrite Hs in *.
    inversion IH as [|? ? Hnode Hnodes]; subst.
    destruct (Ascii.eqb_spec c sep) as [->|Hne].
    + constructor; [reflexivity | exact IH].
    + constructor; [|exact Hnodes]. simpl.
      destruct (Ascii.eqb_spec sep c) as [->|_]; [congruence | exact Hnode].
Qed.

Lemma split_length (sep : ascii) (s : string) :
  (1 <? length (JsString.split sep s))%nat = JsString.includes s (String sep EmptyString).
Proof.
  induction s as [|c s IH]; [reflexivity|]. simpl.
  destruct (split_cons sep s) as (node & nodes & Hs). rewrite Hs in *.
  rewrite (Ascii.eqb_sym sep c).
  destruct (Ascii.eqb c sep); [reflexivity|]. exact IH.
Qed.

(** The folder of a path with a separator: the path up to its last
    separator. *)
Lemma folder_of_path (path : string) :
  JsString.includes path "/" = true ->
  exists name,
    path = JsString.join "/" (dropRight (JsString.split "/" path)) +:+ "/" +:+ name
    /\ JsString.includes name "/" = false.
Proof.
  intros Hsep. rewrite <- split_length in Hsep.
  pose proof (join_split "/" path) as Hjoin.
  pose proof (split_nodes "/" path) as Hnodes.
  induction (JsString.split "/" path) as [|node front _] using rev_ind;
    [discriminate|].
  unfold dropRight. rewrite removelast_last.
  exists node. split.
  - rewrite <- Hjoin at 1. apply join_snoc.
    destruct front; [discriminate Hsep | discriminate].
  - apply Forall_app in Hnodes. destruct Hnodes as [_ Hlast].
    inversion Hlast; assumption.
Qed.

(** ** Files of the vault *)

Section DiskFiles.

Context {World : Type}.
Variable perform : forall X : Type, Op X -> World -> Result X * World.

(** A destination that exists as a file is opened as it is: the vault is
    asked for the path with the extension ".md" and for nothing else. *)
Theorem existing_file_is_opened (path : string) (s : St World) (w1 : World) (file : TFile) :
  perform _ (getAbstractFileByPath (path +:+ ".md")) (fst s)
  = (Ok (Some (IsTFile file)), w1) ->
  run perform (getDiskFile path) s
  = (Ok (DiskFile file),
     (w1, snd s ++ [Performed (getAbstractFileByPath (path +:+ ".md")) true])).
Proof.
  intros Hlookup. unfold getDiskFile, getOrCreateFile. simpl.
  unfold exec. rewrite Hlookup. reflexivity.
Qed.

(** A destination whose path is taken by a folder is refused with "<path>.md
    is not a valid markdown file"; nothing is created. *)
Theorem folder_is_not_a_file (path folder : string) (s : St World) (w1 : World) :
  perform _ (getAbstractFileByPath (path +:+ ".md")) (fst s)
  = (Ok (Some (IsTFolder folder)), w1) ->
  run perform (getDiskFile path) s
  = (Err (ThrownError ((path +:+ ".md") +:+ " is not a valid markdown file")),
     (w1, snd s ++ [Performed (getAbstractFileByPath (path +:+ ".md")) true])).
Proof.
  intros Hlookup. unfold getDiskFile, getOrCreateFile. simpl.
  unfold exec. rewrite Hlookup. reflexivity.
Qed.

(** A missing file whose path has no "/" is created empty, and no folder is
    looked up or created. *)
Theorem file_created_without_folder (path : string) (s : St World) (w1 : World) :
  perform _ (getAbstractFileByPath path) (fst s) = (Ok None, w1) ->
  JsString.includes path "/" = false ->
  run perform (getOrCreateFile path) s
  = let '(created, w2) := perform _ (create path "") w1 in
    (created,
     (w2, snd s ++ [Performed (getAbstractFileByPath path) true;
                    Performed (create path "") (isOk created)])).
Proof.
  intros Hlookup Hflat. unfold getOrCreateFile. simpl.
  unfold exec at 1. rewrite Hlookup. cbn [fst snd isOk].
  rewrite split_length, Hflat. simpl. unfold exec. cbn [fst snd].
  destruct (perform _ (create path "") w1) as [[file|e] w2]; simpl;
    rewrite <- app_assoc; reflexivity.
Qed.

(** A missing file whose path has a "/" : the folder is the path up to its
    last "/"; it is created only when the vault has nothing at that path,
    and then the file is created empty.  No other folder is created. *)
Theorem file_created_in_folder (path : string) (s : St World) (w1 : World) :
  perform _ (getAbstractFileByPath path) (fst s) = (Ok None, w1) ->
  JsString.includes path "/" = true ->
  exists folderPath name,
    path = folderPath +:+ "/" +:+ name
    /\ JsString.includes name "/" = false
    /\ run perform (getOrCreateFile path) s
       = let s1 := (w1, snd s ++ [Performed (getAbstractFileByPath path) true]) in
         let '(existingFolder, s2) := exec perform (getAbstractFileByPath folderPath) s1 in
         match existingFolder with
         | Err e => (Err e, s2)
         | Ok (Some _) => run perform (await (create path "")) s2
         | Ok None =>
             let '(made, s3) := exec perform (createFolder folderPath) s2 in
             match made with
             | Err e => (Err e, s3)
             | Ok _ => run perform (await (create path "")) s3
             end
         end.
Proof.
  intros Hlookup Hsep. destruct (folder_of_path path Hsep) as (name & Hpath & Hname).
  exists (JsString.join "/" (dropRight (JsString.split "/" path))), name.
  split; [exact Hpath|]. split; [exact Hname|].
  unfold getOrCreateFile. simpl.
  unfold exec at 1. rewrite Hlookup. cbn [fst snd isOk].
  rewrite split_length, Hsep. simpl.
  destruct (exec perform (getAbstractFileByPath _) _) as [[[found|]|e] s2]; simpl;
    try reflexivity.
Qed.

End DiskFiles.

(** ** Failures and cursors *)

Section Failures.

Context {IS : Type} (this : Archiver IS).
Context {World : Type}.
Variable perform : forall X : Type, Op X -> World -> Result X * World.
Variable schedule : list nat.

(** A source that cannot be read: the batched operation fails with the
    error of the host, and the host is called for nothing else. *)
Theorem unreadable_source_stops_the_archive (file : ActiveFile)
  (extractor : BlockExtractor) (s : St World) (e : Error) (w1 : World) :
  perform _ (readLines file) (fst s) = (Err e, w1) ->
  extractAndArchiveTasksInActiveFile this World perform schedule file extractor s
  = (Err e, (w1, snd s ++ [Performed (readLines file) false])).
Proof.
  intros Hread. unfold extractAndArchiveTasksInActiveFile, M_bind.
  unfold extractTasksFromActiveFile. rewrite run_editFileTree.
  unfold exec. rewrite Hread. reflexivity.
Qed.

(** A source that cannot be written back: the operation fails with the
    error of the host before any task is given a rule, and no destination is
    read, created or written. *)
Theorem unwritable_source_stops_the_archive (file : ActiveFile)
  (extractor : BlockExtractor) (s : St World) (lines : list string)
  (e : Error) (w1 w2 : World) (extracted : list Block) (tree' : Section) :
  perform _ (readLines file) (fst s) = (Ok lines, w1) ->
  extractBlocksRecursively (parse this lines) (taskFilter this) extractor
  = (extracted, tree') ->
  perform _ (writeLines file (stringifyTree this tree')) w1 = (Err e, w2) ->
  extractAndArchiveTasksInActiveFile this World perform schedule file extractor s
  = (Err e,
     (w2, snd s ++ [Performed (readLines file) true;
                    Performed (writeLines file (stringifyTree this tree')) false])).
Proof.
  intros Hread Hex Hwrite. unfold extractAndArchiveTasksInActiveFile, M_bind.
  source_written_back this perform extractor Hread Hex Hwrite. reflexivity.
Qed.

(** Without a configured rule, the status of a task is never read: every
    extracted block gets the default rule, with or without a status
    marker. *)
Theorem default_rule_without_rules (extracted : list Block) :
  Settings.rules (settings this) = [] ->
  mapResult (withRule this) extracted
  = Ok (map (fun block => {| task := block; rule := getDefaultRule this |}) extracted).
Proof.
  intros Hrules. induction extracted as [|block extracted IH]; [reflexivity|].
  simpl. rewrite (withRule_without_rules this block Hrules), IH. reflexivity.
Qed.

(** With the cursor outside any list item, archiving the task under the
    cursor asks the editor for the item and does nothing else. *)
Theorem no_task_under_cursor (s : St World) (w1 : World) :
  perform _ detectListItemUnderCursor (fst s) = (Ok None, w1) ->
  archiveTaskUnderCursor this World perform schedule s
  = (Ok tt, (w1, snd s ++ [Performed detectListItemUnderCursor true])).
Proof.
  intros Hdetect. unfold archiveTaskUnderCursor, M_bind. simpl.
  unfold exec. rewrite Hdetect. reflexivity.
Qed.

(** With the cursor outside any heading, archiving the heading under the
    cursor asks the editor for the heading and does nothing else. *)
Theorem no_heading_under_cursor (s : St World) (w1 : World) :
  perform _ detectHeadingUnderCursor (fst s) = (Ok None, w1) ->
  archiveHeadingUnderCursor this World perform s
  = (Ok tt, (w1, snd s ++ [Performed detectHeadingUnderCursor true])).
Proof.
  intros Hdetect. unfold archiveHeadingUnderCursor, M_bind. simpl.
  unfold exec. rewrite Hdetect. reflexivity.
Qed.

(** When the text cut from the editor parses to a root without blocks, the
    operation fails after the cut: the text is gone from the editor, and no
    file is read or written. *)
Theorem cut_task_without_block_is_lost (s s1 s2 s3 : St World) (range : Range)
  (text : string) :
  exec perform detectListItemUnderCursor s = (Ok (Some range), s1) ->
  exec perform (getRange range) s1 = (Ok text, s2) ->
  exec perform (replaceRange "" range) s2 = (Ok tt, s3) ->
  block_children (blockContent (parse this (JsString.split "010" text))) = [] ->
  archiveTaskUnderCursor this World perform schedule s
  = (Err (TypeError "parsedTaskBlock is undefined"), s3).
Proof.
  intros Hdetect Hget Hreplace Hparsed.
  unfold archiveTaskUnderCursor, M_bind. simpl run.
  rewrite Hdetect. simpl. rewrite Hget. simpl. rewrite Hreplace.
  rewrite Hparsed. reflexivity.
Qed.

(** When the text cut from the editor parses to a root without headings,
    and the archive is in the same file, the operation fails after the cut
    and after reading the file: the text is gone from the editor and is
    written nowhere. *)
Theorem cut_heading_without_section_is_lost (s s1 s2 s3 : St World) (range : Range)
  (text : string) (lines : list string) (w4 : World) :
  exec perform detectHeadingUnderCursor s = (Ok (Some range), s1) ->
  exec perform (getRange range) s1 = (Ok text, s2) ->
  exec perform (replaceRange "" range) s2 = (Ok tt, s3) ->
  sec_children (parse this (JsString.split "010" text)) = [] ->
  Settings.archiveToSeparateFile (settings this) = false ->
  perform _ (readLines EditorFile) (fst s3) = (Ok lines, w4) ->
  archiveHeadingUnderCursor this World perform s
  = (Err (TypeError "section is undefined"),
     (w4, snd s3 ++ [Performed (readLines EditorFile) true])).
Proof.
  intros Hdetect Hget Hreplace Hparsed Hfile Hread.
  unfold archiveHeadingUnderCursor, M_bind. simpl run.
  rewrite Hdetect. simpl. rewrite Hget. simpl. rewrite Hreplace.
  rewrite Hparsed. cbn [head].
  unfold archiveSection, getArchiveFile. rewrite Hfile. cbn [negb Proc_bind].
  rewrite run_editFileTree. unfold exec. rewrite Hread.
  unfold appendToArchive.
  destruct (getArchiveSectionFromRoot this (parse this lines)) as [[tree' p] archive].
  reflexivity.
Qed.

End Failures.

(** ** What archiving leaves alone *)

Lemma updateAt_elsewhere (f : Section -> Section) :
  (forall x, sec_text (f x) = sec_text x
             /\ tokenLevel (f x) = tokenLevel x
             /\ sec_children (f x) = sec_children x) ->
  forall (q p : Path) (s x : Section),
    sectionAt q s = Some x ->
    exists x',
      sectionAt q (updateAt p f s) = Some x'
      /\ sec_text x' = sec_text x
      /\ tokenLevel x' = tokenLevel x
      /\ length (sec_children x') = length (sec_children x)
      /\ (q <> p -> blockContent x' = blockContent x).
Proof.
  intros Hf. induction q as [|j q IH]; intros p s x.
  - simpl. intros [= <-]. exists (updateAt p f s). split; [reflexivity|].
    destruct p as [|i p]; simpl.
    + destruct (Hf s) as (Ht & Hl & Hc). rewrite Ht, Hl, Hc. repeat split; congruence.
    + rewrite length_alter. repeat split; reflexivity.
  - simpl. destruct (sec_children s !! j) as [c|] eqn:Hc; [|discriminate].
    intros Hx. destruct p as [|i p]; simpl.
    + destruct (Hf s) as (_ & _ & Hcs). rewrite Hcs, Hc.
      exists x. repeat split; try reflexivity. exact Hx.
    + rewrite list_lookup_alter. destruct (decide (i = j)) as [->|Hne].
      * rewrite Hc. simpl. destruct (IH p c x Hx) as (x' & Hat & Ht & Hl & Hn & Hb).
        exists x'. repeat split; try assumption. intros Hqp. apply Hb. congruence.
      * rewrite Hc. exists x. repeat split; try reflexivity. exact Hx.
Qed.

Section Frames.

Context {IS : Type} (this : Archiver IS).

(** Archiving blocks into a tree changes the block content of the archive
    Section and nothing else: every Section of the tree, as
    [getArchiveSectionFromRoot] leaves it, is still at its place with its
    heading text, its level and the number of its sub-headings, and, but for
    the archive Section, with its blocks; the blocks of the archive Section
    are those that the date tree resolver returns. *)
Theorem archiving_changes_only_the_archive_blocks (tasks : list Block) (root : Section) :
  let '(root', p, archive) := getArchiveSectionFromRoot this root in
  forall (q : Path) (x : Section),
    sectionAt q root' = Some x ->
    exists x',
      sectionAt q (archiveBlocksToRoot this tasks root) = Some x'
      /\ sec_text x' = sec_text x
      /\ tokenLevel x' = tokenLevel x
      /\ length (sec_children x') = length (sec_children x)
      /\ (q <> p -> blockContent x' = blockContent x)
      /\ (q = p ->
          x = archive
          /\ blockContent x'
             = mergeNewBlocksWithDateTree this (blockContent archive) tasks).
Proof.
  pose proof (archive_section_valid this root) as Hvalid.
  unfold archiveBlocksToRoot.
  destruct (getArchiveSectionFromRoot this root) as [[root' p] archive].
  intros q x Hx.
  set (f := fun s => setBlockContent
                       (mergeNewBlocksWithDateTree this (blockContent s) tasks) s).
  assert (Hf : forall y, sec_text (f y) = sec_text y
                         /\ tokenLevel (f y) = tokenLevel y
                         /\ sec_children (f y) = sec_children y)
    by (intros y; repeat split; reflexivity).
  destruct (updateAt_elsewhere f Hf q p root' x Hx) as (x' & Hat & Ht & Hl & Hn & Hb).
  exists x'. repeat split; try assumption.
  - subst q. congruence.
  - subst q. rewrite (sectionAt_updateAt f p root' archive Hvalid) in Hat.
    injection Hat as <-. reflexivity.
Qed.

End Frames.

(** ** The groups of a batch *)

Lemma addToGroup_concat {V} (key : string) (v : V) (groups : list (string * list V)) :
  Permutation (concat (map snd (Lodash.addToGroup key v groups)))
    (v :: concat (map snd groups)).
Proof.
  induction groups as [|[k vs] groups IH]; simpl; [reflexivity|].
  destruct (String.eqb key k); simpl.
  - rewrite <- app_assoc. simpl. symmetry. apply Permutation_middle.
  - rewrite IH. symmetry. apply Permutation_middle.
Qed.

Lemma groupBy_concat {V} (iteratee : V -> string) (xs : list V) :
  Permutation (concat (map snd (Lodash.groupBy iteratee xs))) xs.
Proof.
  unfold Lodash.groupBy.
  assert (H : forall groups,
             Permutation
               (concat (map snd
                          (fold_left (fun groups v =>
                                        Lodash.addToGroup (iteratee v) v groups)
                                     xs groups)))
               (concat (map snd groups) ++ xs)).
  { induction xs as [|x xs IH]; intros groups; simpl.
    - rewrite app_nil_r. reflexivity.
    - rewrite IH, addToGroup_concat. simpl. apply Permutation_middle. }
  apply H.
Qed.

Lemma concat_Permutation {A} (l l' : list (list A)) :
  Permutation l l' -> Permutation (concat l) (concat l').
Proof.
  induction 1 as [|x l l' _ IH|x y l|l l' l'' _ IH1 _ IH2]; simpl.
  - reflexivity.
  - rewrite IH. reflexivity.
  - rewrite !app_assoc. apply Permutation_app_tail, Permutation_app_comm.
  - etransitivity; eassumption.
Qed.

Lemma mapValues_concat {A B} (f : A -> B) (object : list (string * list A)) :
  concat (map snd (Lodash.mapValues (fun vs => map f vs) object))
  = map f (concat (map snd object)).
Proof.
  induction object as [|[k vs] object IH]; simpl; [reflexivity|].
  rewrite IH, map_app. reflexivity.
Qed.

Lemma concat_length_nonempty {A} (l : list (list A)) :
  Forall (fun x => x <> []) l -> (length l <= length (concat l))%nat.
Proof.
  induction 1 as [|x l Hx _ IH]; simpl; [lia|].
  rewrite length_app. destruct x; [congruence | simpl; lia].
Qed.

Section Groups.

Context {IS : Type} (this : Archiver IS).

(** The groups of a batch are a partition of its tasks: every task, as the
    metadata service returns it, is in one group and in one only; no group
    is empty; so there are no more destination jobs than tasks. *)
Theorem groups_partition_the_batch (tasks : list BlockWithRule) (activeFile : ActiveFile) :
  Permutation (concat (map snd (archiveGroups this tasks)))
    (map task (prepared this tasks))
  /\ Forall (fun group => snd group <> []) (archiveGroups this tasks)
  /\ (length (archiveJobs this tasks activeFile) <= length tasks)%nat.
Proof.
  assert (Hperm : Permutation (concat (map snd (archiveGroups this tasks)))
                    (map task (prepared this tasks))).
  { unfold archiveGroups.
    rewrite (concat_Permutation _ _
               (Permutation_map snd (toPairs_Permutation _))).
    rewrite mapValues_concat, groupBy_concat.
    unfold prepared. rewrite !map_map.
    erewrite map_ext; [reflexivity|].
    intros [t r]. simpl. destruct (appendMetadata this _). reflexivity. }
  assert (Hall : Forall (fun group => snd group <> []) (archiveGroups this tasks)).
  { apply Forall_forall. intros [k ts] Hin. apply list_elem_of_In in Hin.
    apply archiveGroups_In in Hin. apply Hin. }
  split; [exact Hperm|]. split; [exact Hall|].
  unfold archiveJobs. rewrite length_map.
  assert (Hlen : length (concat (map snd (archiveGroups this tasks))) = length tasks).
  { rewrite (Permutation_length Hperm). unfold prepared. rewrite !length_map. reflexivity. }
  rewrite <- Hlen. rewrite <- (length_map snd (archiveGroups this tasks)).
  apply concat_length_nonempty. apply Forall_map. exact Hall.
Qed.

End Groups.

(** ** A batch with one destination *)

Section OneJob.

Context {World : Type}.
Variable perform : forall X : Type, Op X -> World -> Result X * World.

Lemma run_resume {A} (p : Proc A) (s : St World) :
  run perform (fst (resume perform p s)) (snd (resume perform p s)) = run perform p s.
Proof.
  destruct p as [a|e|X op k|X op k]; try reflexivity.
  simpl. destruct (exec perform op s) as [[x|e] s']; [apply run_advance | reflexivity].
Qed.

Lemma noteRejection_rejectedAs (first : option Error) (job job' : Proc unit) :
  rejectedAs first job -> (rejection job <> None -> job' = job) ->
  rejectedAs (noteRejection first job') job'.
Proof.
  destruct first as [e|]; simpl.
  - intros -> Hkeep. apply Hkeep. discriminate.
  - intros _ _. unfold rejectedAs. destruct job'; simpl; auto.
Qed.

Lemma outcome_step (first : option Error) (job job' : Proc unit) (s s' : St World) :
  rejectedAs first job ->
  run perform job' s' = run perform job s ->
  (rejection job <> None -> job' = job) ->
  oneJobOutcome perform (noteRejection first job') job' s' = oneJobOutcome perform first job s.
Proof.
  intros Hc Hrun Hkeep. unfold oneJobOutcome. rewrite Hrun.
  destruct first as [e|]; simpl; [reflexivity|].
  destruct job' as [a|e|X op k|X op k]; simpl; try reflexivity.
  rewrite <- Hrun. reflexivity.
Qed.

Lemma eventLoop_one (schedule : list nat) :
  forall (job : Proc unit) (first : option Error) (s : St World),
    rejectedAs first job ->
    exists job' first' s',
      eventLoop perform schedule [job] first s = ([job'], first', s')
      /\ rejectedAs first' job'
      /\ oneJobOutcome perform first' job' s' = oneJobOutcome perform first job s.
Proof.
  induction schedule as [|i schedule IH]; intros job first s Hc; simpl; [eauto 6|].
  destruct i as [|i]; simpl; [|apply IH; exact Hc].
  pose proof (run_resume job s) as Hrun.
  pose proof (resume_settled perform job s) as Hkeep.
  destruct (resume perform job s) as [job1 s1]. simpl in Hrun, Hkeep.
  destruct (IH job1 (noteRejection first job1) s1
              (noteRejection_rejectedAs _ _ _ Hc Hkeep))
    as (job' & first' & s' & Hloop & Hc' & Hout).
  exists job', first', s'. split; [exact Hloop|]. split; [exact Hc'|].
  rewrite Hout. apply outcome_step; assumption.
Qed.

Lemma drain_one (job : Proc unit) (first : option Error) (s : St World) :
  exists job',
    drain perform [job] first s
    = ([job'], fst (oneJobOutcome perform first job s),
       snd (oneJobOutcome perform first job s)).
Proof.
  simpl. unfold finish, oneJobOutcome.
  destruct (run perform job s) as [[[]|e] s']; destruct first; simpl; eauto.
Qed.

Lemma oneJobOutcome_started (job job1 : Proc unit) (s s1 : St World) :
  run perform job1 s1 = run perform job s ->
  oneJobOutcome perform (rejection job1) job1 s1 = oneJobOutcome perform None job s.
Proof.
  intros Hrun. unfold oneJobOutcome. rewrite <- Hrun.
  destruct job1 as [a|e|X op k|X op k]; reflexivity.
Qed.

(** A batch of one job does not depend on the schedule: it ends as the job
    run alone ends. *)
Lemma promiseAll_one (schedule : list nat) (job : Proc unit) (s : St World) :
  promiseAll perform schedule [job] s
  = let '(r, s') := run perform job s in
    (match r with Ok _ => Ok tt | Err e => Err e end, s').
Proof.
  unfold promiseAll, runAll. simpl.
  pose proof (run_advance perform job s) as Hrun.
  destruct (advance perform job s) as [job1 s1]. simpl in Hrun.
  destruct (eventLoop_one schedule job1 (rejection job1) s1) as
    (job' & first' & s' & Hloop & Hc & Hout).
  { unfold rejectedAs. destruct job1; simpl; auto. }
  change (noteRejection None job1) with (rejection job1). rewrite Hloop.
  destruct (drain_one job' first' s') as [jobF ->].
  rewrite Hout, (oneJobOutcome_started job job1 s s1 Hrun).
  unfold oneJobOutcome. destruct (run perform job s) as [[[]|e] s2]; reflexivity.
Qed.

End OneJob.

Lemma groupBy_one_key {V} (iteratee : V -> string) (key : string) (xs : list V) :
  xs <> [] ->
  (forall x, In x xs -> iteratee x = key) ->
  Lodash.groupBy iteratee xs = [(key, xs)].
Proof.
  unfold Lodash.groupBy.
  assert (H : forall ys zs,
             (forall x, In x zs -> iteratee x = key) ->
             fold_left (fun groups v => Lodash.addToGroup (iteratee v) v groups)
               zs [(key, ys)]
             = [(key, ys ++ zs)]).
  { intros ys zs. revert ys. induction zs as [|z zs IH]; intros ys Hall; simpl.
    - rewrite app_nil_r. reflexivity.
    - rewrite (Hall z) by (left; reflexivity). rewrite String.eqb_refl.
      rewrite IH by (intros x Hx; apply Hall; right; exact Hx).
      rewrite <- app_assoc. reflexivity. }
  destruct xs as [|x xs]; [congruence|]. intros _ Hall. simpl.
  rewrite (Hall x) by (left; reflexivity).
  apply (H [x] xs). intros y Hy. apply Hall. right. exact Hy.
Qed.

Lemma toPairs_one {V} (key : string) (v : V) :
  Lodash.toPairs [(key, v)] = [(key, v)].
Proof. unfold Lodash.toPairs. simpl. destruct (Lodash.arrayIndex key); reflexivity. Qed.

Section OneDestination.

Context {IS : Type} (this : Archiver IS).
Context {World : Type}.
Variable perform : forall X : Type, Op X -> World -> Result X * World.

Lemma archiveJobs_one_path (tasks : list BlockWithRule) (activeFile : ActiveFile)
  (archivePath : string) :
  tasks <> [] ->
  (forall t, In t (prepared this tasks) -> archivePathOf this (rule t) = archivePath) ->
  archiveJobs this tasks activeFile
  = [archiveGroup this activeFile (archivePath, map task (prepared this tasks))].
Proof.
  intros Hne Hall. unfold archiveJobs, archiveGroups.
  assert (Hprep : map (fun taskWithRule => appendMetadata this taskWithRule)
                    (map (fun '(mkBlockWithRule task rule) =>
                            {| task := replaceText this task; rule := rule |}) tasks)
                  = prepared this tasks).
  { unfold prepared. rewrite map_map. apply map_ext. intros [t r]. reflexivity. }
  rewrite Hprep.
  rewrite (groupBy_one_key snd archivePath).
  - simpl. rewrite toPairs_one. simpl. rewrite map_map.
    erewrite map_ext; [reflexivity|]. intros [t r]. reflexivity.
  - intros Hnil. apply map_eq_nil in Hnil. unfold prepared in Hnil.
    apply map_eq_nil in Hnil. congruence.
  - intros [b p] Hin. apply in_map_iff in Hin. destruct Hin as ([t r] & [= <- <-] & Hin).
    simpl. exact (Hall _ Hin).
Qed.

(** A batch whose tasks all have the same archive path has one destination
    job, and its outcome does not depend on the order in which the host
    settles the promises: it is the outcome of that job run alone. *)
Theorem one_destination_ignores_schedule (schedule : list nat)
  (tasks : list BlockWithRule) (activeFile : ActiveFile) (archivePath : string)
  (s : St World) :
  tasks <> [] ->
  (forall t, In t (prepared this tasks) -> archivePathOf this (rule t) = archivePath) ->
  archiveTasks this World perform schedule tasks activeFile s
  = let '(r, s') :=
      run perform
        (archiveGroup this activeFile (archivePath, map task (prepared this tasks))) s in
    (match r with Ok _ => Ok tt | Err e => Err e end, s').
Proof.
  intros Hne Hall. unfold archiveTasks.
  rewrite (archiveJobs_one_path tasks activeFile archivePath Hne Hall).
  apply promiseAll_one.
Qed.

(** Archiving the task under the cursor does not depend on the order in
    which the host settles the promises. *)
Theorem cursor_task_ignores_schedule (schedule schedule' : list nat) (s : St World) :
  archiveTaskUnderCursor this World perform schedule s
  = archiveTaskUnderCursor this World perform schedule' s.
Proof.
  unfold archiveTaskUnderCursor, M_bind.
  destruct (run perform (call detectListItemUnderCursor) s) as [[[range|]|e] s1];
    try reflexivity.
  destruct (run perform (call (getRange range)) s1) as [[text|e] s2]; [|reflexivity].
  destruct (run perform (call (replaceRange "" range)) s2) as [[[]|e] s3];
    [|reflexivity].
  destruct (block_children _) as [|block rest]; [reflexivity|].
  unfold archiveTasks.
  set (t := {| task := setBlockText (completeTask (block_text block)) block;
               rule := getDefaultRule this |}).
  rewrite (archiveJobs_one_path [t] EditorFile
             (archivePathOf this (rule (appendMetadata this
                {| task := replaceText this (task t); rule := rule t |}))))
    by (try discriminate; intros t' [<-|[]]; reflexivity).
  rewrite !promiseAll_one. reflexivity.
Qed.

End OneDestination.

(** ** Status markers *)

Lemma matchStatus_head (c d e : ascii) (tl : string) :
  matchStatus (String c (String d (String e tl)))
  = if Ascii.eqb c "[" && negb (JsString.isLineTerminator d) && Ascii.eqb e "]"
    then Some (String d EmptyString)
    else matchStatus (String d (String e tl)).
Proof. reflexivity. Qed.

Lemma matchStatus_short (c d : ascii) : matchStatus (String c (String d EmptyString)) = None.
Proof. reflexivity. Qed.

(** The status of a task is the character of its leftmost marker: of the
    first pair of brackets around one character that is not a line
    terminator. *)
Theorem status_is_leftmost_marker (pre post : string) (marker : ascii)
  (children : list Block) :
  matchStatus (pre +:+ String "[" (String marker EmptyString)) = None ->
  JsString.isLineTerminator marker = false ->
  getTaskStatus
    (mkBlock (pre +:+ String "[" (String marker (String "]" post))) children)
  = Ok (String marker EmptyString).
Proof.
  intros Hpre Hlt. unfold getTaskStatus. cbn [block_text].
  assert (H : matchStatus (pre +:+ String "[" (String marker (String "]" post)))
              = Some (String marker EmptyString)); [|rewrite H; reflexivity].
  induction pre as [|a pre IH].
  - change ("" +:+ ?x) with x. rewrite matchStatus_head, Hlt. reflexivity.
  - rewrite append_cons in Hpre |- *.
    specialize (IH (matchStatus_tail _ _ Hpre)).
    destruct pre as [|d [|e pre]].
    + change ("" +:+ ?x) with x in *. rewrite matchStatus_head in Hpre |- *.
      rewrite matchStatus_short in Hpre.
      destruct (_ && _ && _); [discriminate | exact IH].
    + rewrite !append_cons in *. change ("" +:+ ?x) with x in *.
      rewrite matchStatus_head in Hpre |- *.
      destruct (_ && _ && _); [discriminate | exact IH].
    + rewrite !append_cons in *. rewrite matchStatus_head in Hpre |- *.
      destruct (_ && _ && _); [discriminate | exact IH].
Qed.

Lemma completeTask_head (d e : ascii) (tl : string) :
  JsString.startsWith "[ ]" (String d (String e tl)) = false ->
  exists tl', completeTask (String d (String e tl)) = String d (String e tl').
Proof.
  intros Hno. unfold completeTask. cbn [JsString.replace]. rewrite Hno.
  destruct (JsString.startsWith "[ ]" (String e tl)) eqn:He.
  - assert (He' : e = "["%char).
    { destruct e as [[] [] [] [] [] [] [] []]; try discriminate He. reflexivity. }
    subst e. eexists. reflexivity.
  - eexists. reflexivity.
Qed.

(** Completing a task and reading its status: the status of an open task
    (a blank) becomes [x]; any other status is kept, whatever else
    [completeTask] replaces in the text. *)
Theorem status_after_completion (text taskStatus : string) (children : list Block) :
  getTaskStatus (mkBlock text children) = Ok taskStatus ->
  getTaskStatus (mkBlock (completeTask text) children)
  = Ok (if String.eqb taskStatus " " then "x" else taskStatus).
Proof.
  unfold getTaskStatus. cbn [block_text].
  destruct (matchStatus text) as [st|] eqn:Hst; [|discriminate]. intros [= <-].
  assert (H : matchStatus (completeTask text)
              = Some (if String.eqb st " " then "x" else st)); [|rewrite H; reflexivity].
  revert st Hst. induction text as [|c rest IH]; intros st Hst; [discriminate|].
  destruct (JsString.startsWith "[ ]" (String c rest)) eqn:Hopen.
  - pose proof (startsWith_split _ _ Hopen) as Hsplit.
    unfold completeTask. cbn [JsString.replace]. rewrite Hopen.
    rewrite Hsplit in Hst. rewrite !append_cons in Hst.
    change ("" +:+ ?x) with x in Hst. rewrite matchStatus_head in Hst.
    injection Hst as <-. reflexivity.
  - destruct rest as [|d [|e tl]]; try discriminate.
    rewrite matchStatus_head in Hst.
    destruct (Ascii.eqb c "[" && negb (JsString.isLineTerminator d) && Ascii.eqb e "]")
      eqn:Hcond.
    + injection Hst as <-.
      apply andb_prop in Hcond. destruct Hcond as [Hcond He].
      apply andb_prop in Hcond. destruct Hcond as [Hc Hd].
      apply Ascii.eqb_eq in Hc, He. subst c e.
      assert (Hblank : Ascii.eqb d " " = false).
      { destruct (Ascii.eqb_spec d " ") as [->|]; [discriminate Hopen | reflexivity]. }
      assert (Hst' : String.eqb (String d EmptyString) " " = false)
        by (simpl; rewrite Hblank; reflexivity).
      rewrite Hst'. unfold completeTask. cbn [JsString.replace]. rewrite Hopen.
      assert (H1 : JsString.startsWith "[ ]" (String d (String "]" tl)) = false).
      { cbn [JsString.startsWith]. destruct (Ascii.eqb "[" d); reflexivity. }
      rewrite H1. cbn [JsString.replace].
      assert (H2 : JsString.startsWith "[ ]" (String "]" tl) = false) by reflexivity.
      rewrite H2. rewrite matchStatus_head. rewrite Hd. reflexivity.
    + specialize (IH st Hst).
      assert (Hc : completeTask (String c (String d (String e tl)))
                   = String c (completeTask (String d (String e tl)))).
      { unfold completeTask. cbn [JsString.replace]. rewrite Hopen. reflexivity. }
      rewrite Hc.
      destruct (JsString.startsWith "[ ]" (String d (String e tl))) eqn:Hnext.
      * pose proof (startsWith_split _ _ Hnext) as Hsplit.
        revert IH. unfold completeTask. cbn [JsString.replace]. rewrite Hnext.
        rewrite !append_cons. change ("" +:+ ?x) with x.
        intros IH. rewrite matchStatus_head.
        rewrite andb_false_r. exact IH.
      * destruct (completeTask_head d e tl Hnext) as [tl' Htl]. rewrite Htl in *.
        rewrite matchStatus_head, Hcond. exact IH.
Qed.

(** ** Two jobs on one file *)

Lemma refhost_lookup_file (w : RefHost.World) (p : string) (lines : list string) :
  RefHost.vault w !! p = Some (RefHost.File lines) ->
  RefHost.perform _ (getAbstractFileByPath p) w = (Ok (Some (IsTFile (mkTFile p))), w).
Proof. intros H. simpl. rewrite H. reflexivity. Qed.

Lemma refhost_read_file (w : RefHost.World) (p : string) (lines : list string) :
  RefHost.vault w !! p = Some (RefHost.File lines) ->
  RefHost.perform _ (readLines (DiskFile (mkTFile p))) w = (Ok lines, w).
Proof. intros H. simpl. rewrite H. reflexivity. Qed.

Lemma refhost_write_file (w : RefHost.World) (p : string) (old lines : list string) :
  RefHost.vault w !! p = Some (RefHost.File old) ->
  RefHost.isReadOnly w p = false ->
  RefHost.perform _ (writeLines (DiskFile (mkTFile p)) lines) w
  = (Ok tt, RefHost.setVault (<[p := RefHost.File lines]> (RefHost.vault w)) w).
Proof. intros H Hw. simpl. rewrite H, Hw. reflexivity. Qed.

(** One step of a batch on a host: the interpreters are unfolded up to the
    next call of the host. *)
Ltac batch_step :=
  cbn [startAll eventLoop drain advance resume finish run Proc_bind call await
       noteRejection rejection lookup list_lookup insert list_insert isOk fst snd];
  unfold exec;
  cbn [isOk fst snd].

Ltac same_file_step Hfile Hwritable :=
  batch_step;
  first [ rewrite (refhost_lookup_file _ _ _ Hfile)
        | rewrite (refhost_read_file _ _ _ Hfile)
        | rewrite (refhost_write_file _ _ _ _ Hfile Hwritable)
        | erewrite refhost_write_file; [|apply lookup_insert_eq | exact Hwritable] ].

Section SameFile.

Context {IS : Type} (this : Archiver IS).

(** On the reference host: when the path of a rule is the path of the
    active file, the batch has two jobs on one file, in the order in
    which [toPairs] yields their paths.  Under each of the schedules in
    which both jobs read the file before either writes, the batch
    succeeds, and the world at its end is the world at its start but for
    that file, which holds what the job that writes last made of the
    lines read at the start: the blocks of the other job are in no
    file. *)
Theorem same_file_update_is_lost (path : string) (tasks : list BlockWithRule)
  (first second : string * list Block) (schedule : list nat)
  (w : RefHost.World) (trace : list Event) (lines : list string) :
  String.eqb path "current-file" = false ->
  RefHost.vault w !! (path +:+ ".md") = Some (RefHost.File lines) ->
  RefHost.isReadOnly w (path +:+ ".md") = false ->
  archiveGroups this tasks = [first; second] ->
  (fst first = "current-file" /\ fst second = path)
  \/ (fst first = path /\ fst second = "current-file") ->
  bothReadFirst schedule = true ->
  let kept := snd (if (lastWriter schedule =? 0)%nat then first else second) in
  let '(result, (w', _)) :=
    archiveTasks this RefHost.World RefHost.perform schedule tasks
      (DiskFile (mkTFile (path +:+ ".md"))) (w, trace) in
  result = Ok tt
  /\ w' = RefHost.setVault
            (<[path +:+ ".md" :=
                 RefHost.File
                   (stringifyTree this
                      (archiveBlocksToRoot this kept (parse this lines)))]>
               (RefHost.vault w)) w.
Proof.
  intros Hpath Hfile Hwritable Hgroups Hkeys Hschedule.
  unfold archiveTasks, archiveJobs. rewrite Hgroups.
  destruct first as [k0 b0], second as [k1 b1]. simpl in Hkeys.
  destruct schedule as [|[|[|r0]] [|[|[|r1]] [|[|[|w0]] [|[|[|w1]] [|]]]]];
    try discriminate Hschedule;
    cbv zeta; cbn [lastWriter List.last Nat.eqb snd];
    destruct Hkeys as [[-> ->]|[-> ->]];
    unfold promiseAll, runAll; cbn [map archiveGroup];
    rewrite ?Hpath, ?String.eqb_refl;
    unfold getDiskFile, getOrCreateFile, editFileTree;
    do 5 same_file_step Hfile Hwritable; batch_step;
    (split; [reflexivity|]);
    cbn [RefHost.vault RefHost.setVault RefHost.editorLines RefHost.cursor
         RefHost.listItemUnderCursor RefHost.headingUnderCursor RefHost.readOnly];
    rewrite insert_insert_eq; reflexivity.
Qed.

End SameFile.

(** ** The properties at the scenarios *)

Import Cases.

Lemma existing_file_is_opened_witness :
  run RefHost.perform (getDiskFile "Done") (twoDestinations, [])
  = (Ok (DiskFile (mkTFile "Done.md")),
     (twoDestinations, [Performed (getAbstractFileByPath "Done.md") true])).
Proof.
  exact (existing_file_is_opened RefHost.perform "Done" (twoDestinations, [])
           twoDestinations (mkTFile "Done.md") eq_refl).
Defined.

Lemma folder_is_not_a_file_witness :
  run RefHost.perform (getDiskFile "Done") (folderInTheWay, [])
  = (Err (ThrownError "Done.md is not a valid markdown file"),
     (folderInTheWay, [Performed (getAbstractFileByPath "Done.md") true])).
Proof.
  exact (folder_is_not_a_file RefHost.perform "Done" "Done.md" (folderInTheWay, [])
           folderInTheWay eq_refl).
Defined.

Lemma file_created_without_folder_witness :
  fst (run RefHost.perform (getOrCreateFile "Done.md") (Double.note [], []))
  = Ok (mkTFile "Done.md")
  /\ snd (snd (run RefHost.perform (getOrCreateFile "Done.md") (Double.note [], [])))
     = [Performed (getAbstractFileByPath "Done.md") true;
        Performed (create "Done.md" "") true].
Proof.
  rewrite (file_created_without_folder RefHost.perform "Done.md" (Double.note [], [])
             (Double.note []) eq_refl eq_refl).
  split; reflexivity.
Defined.

Lemma file_created_in_folder_witness :
  exists folderPath name,
    "Archive/2024.md" = folderPath +:+ "/" +:+ name
    /\ JsString.includes name "/" = false
    /\ snd (snd (run RefHost.perform (getOrCreateFile "Archive/2024.md")
                   (Double.note [], [])))
       = [Performed (getAbstractFileByPath "Archive/2024.md") true;
          Performed (getAbstractFileByPath "Archive") true;
          Performed (createFolder "Archive") true;
          Performed (create "Archive/2024.md" "") true].
Proof.
  destruct (file_created_in_folder RefHost.perform "Archive/2024.md"
              (Double.note [], []) (Double.note []) eq_refl eq_refl)
    as (folderPath & name & Hpath & Hname & _).
  exists folderPath, name. split; [exact Hpath|]. split; [exact Hname | reflexivity].
Defined.

Lemma unreadable_source_stops_the_archive_witness :
  archiveShallowTasksInActiveFile (Double.archiver Double.checked []) RefHost.World
    RefHost.perform [] (DiskFile (mkTFile "Missing.md")) (Double.note logNote, [])
  = (Err (HostError "file not found"),
     (Double.note logNote,
      [Performed (readLines (DiskFile (mkTFile "Missing.md"))) false])).
Proof.
  exact (unreadable_source_stops_the_archive (Double.archiver Double.checked [])
           RefHost.perform [] (DiskFile (mkTFile "Missing.md")) shallowExtractBlocks
           (Double.note logNote, []) (HostError "file not found") (Double.note logNote)
           eq_refl).
Defined.

Lemma unwritable_source_stops_the_archive_witness :
  archiveShallowTasksInActiveFile (Double.archiver Double.checked []) RefHost.World
    RefHost.perform [] (DiskFile (mkTFile "Done.md")) (twoDestinations, [])
  = (Err (HostError "file is read-only"),
     (twoDestinations,
      [Performed (readLines (DiskFile (mkTFile "Done.md"))) true;
       Performed (writeLines (DiskFile (mkTFile "Done.md")) [""]) false])).
Proof.
  exact (unwritable_source_stops_the_archive (Double.archiver Double.checked [])
           RefHost.perform [] (DiskFile (mkTFile "Done.md")) shallowExtractBlocks
           (twoDestinations, []) [""] (HostError "file is read-only")
           twoDestinations twoDestinations []
           (mkSection "" 0 (mkBlock "" [mkBlock "" []]) [])
           eq_refl eq_refl eq_refl).
Defined.

Lemma default_rule_without_rules_witness :
  mapResult (withRule (Double.archiver Double.doneKeyword []))
    [mkBlock "- DONE task B" []]
  = Ok [{| task := mkBlock "- DONE task B" [];
           rule := getDefaultRule (Double.archiver Double.doneKeyword []) |}].
Proof.
  exact (default_rule_without_rules (Double.archiver Double.doneKeyword [])
           [mkBlock "- DONE task B" []] eq_refl).
Defined.

Lemma no_task_under_cursor_witness :
  archiveTaskUnderCursor (Double.archiver Double.checked []) RefHost.World
    RefHost.perform [] (Double.note logNote, [])
  = (Ok tt, (Double.note logNote, [Performed detectListItemUnderCursor true])).
Proof.
  exact (no_task_under_cursor (Double.archiver Double.checked []) RefHost.perform []
           (Double.note logNote, []) (Double.note logNote) eq_refl).
Defined.

Lemma no_heading_under_cursor_witness :
  archiveHeadingUnderCursor (Double.archiver Double.checked []) RefHost.World
    RefHost.perform (Double.note logNote, [])
  = (Ok tt, (Double.note logNote, [Performed detectHeadingUnderCursor true])).
Proof.
  exact (no_heading_under_cursor (Double.archiver Double.checked []) RefHost.perform
           (Double.note logNote, []) (Double.note logNote) eq_refl).
Defined.

Lemma cut_task_without_block_is_lost_witness :
  fst (archiveTaskUnderCursor (Double.archiver Double.checked []) RefHost.World
         RefHost.perform [] (itemRangeOnHeading, []))
  = Err (TypeError "parsedTaskBlock is undefined")
  /\ RefHost.editorLines
       (fst (snd (archiveTaskUnderCursor (Double.archiver Double.checked [])
                    RefHost.World RefHost.perform [] (itemRangeOnHeading, []))))
     = [""; "- [ ] task A"; "- [x] task B"].
Proof.
  rewrite (cut_task_without_block_is_lost (Double.archiver Double.checked [])
             RefHost.perform [] (itemRangeOnHeading, []) _ _ _
             (mkPosition 0 0, mkPosition 0 5) "# Log"
             eq_refl eq_refl eq_refl eq_refl).
  split; reflexivity.
Defined.

Lemma cut_heading_without_section_is_lost_witness :
  fst (archiveHeadingUnderCursor (Double.archiver Double.checked []) RefHost.World
         RefHost.perform (headingRangeOnItem, []))
  = Err (TypeError "section is undefined")
  /\ RefHost.editorLines
       (fst (snd (archiveHeadingUnderCursor (Double.archiver Double.checked [])
                    RefHost.World RefHost.perform (headingRangeOnItem, []))))
     = ["# Log"; ""; "- [x] task B"].
Proof.
  rewrite (cut_heading_without_section_is_lost (Double.archiver Double.checked [])
             RefHost.perform (headingRangeOnItem, []) _ _ _
             (mkPosition 1 0, mkPosition 1 12) "- [ ] task A"
             ["# Log"; ""; "- [x] task B"] _
             eq_refl eq_refl eq_refl eq_refl eq_refl eq_refl).
  split; reflexivity.
Defined.

Lemma one_destination_ignores_schedule_witness :
  archiveTasks (Double.archiver Double.checked []) RefHost.World RefHost.perform
    [3; 0; 7; 0]%nat
    [{| task := mkBlock "- [x] a" []; rule := inFileRule |};
     {| task := mkBlock "- [x] b" []; rule := inFileRule |}]
    EditorFile (Double.note logNote, [])
  = (Ok tt,
     (Double.note ["# Log"; "- [ ] task A"; "- [x] task B"; "## Archived";
                   "- [x] a"; "- [x] b"],
      [Performed (readLines EditorFile) true;
       Performed (writeLines EditorFile
                    ["# Log"; "- [ ] task A"; "- [x] task B"; "## Archived";
                     "- [x] a"; "- [x] b"]) true])).
Proof.
  rewrite (one_destination_ignores_schedule (Double.archiver Double.checked [])
             RefHost.perform [3; 0; 7; 0]%nat
             [{| task := mkBlock "- [x] a" []; rule := inFileRule |};
              {| task := mkBlock "- [x] b" []; rule := inFileRule |}]
             EditorFile "current-file" (Double.note logNote, [])).
  - reflexivity.
  - discriminate.
  - intros t [<-|[<-|[]]]; reflexivity.
Defined.

Lemma status_is_leftmost_marker_witness :
  getTaskStatus (mkBlock "- [ ] see [x]" []) = Ok " ".
Proof.
  exact (status_is_leftmost_marker "- " " see [x]" " " [] eq_refl eq_refl).
Defined.

Lemma status_after_completion_witness :
  getTaskStatus (mkBlock (completeTask "- [ ] see [x]") []) = Ok "x"
  /\ getTaskStatus (mkBlock (completeTask "- [-] see [ ]") []) = Ok "-".
Proof.
  split.
  - exact (status_after_completion "- [ ] see [x]" " " [] eq_refl).
  - exact (status_after_completion "- [-] see [ ]" "-" [] eq_refl).
Defined.

(** Two jobs on the file of the note, both reading before either writes.
    For the path "Note" the job of the note comes first: the routed task
    is what remains when the jobs write in that order, and the task kept
    in the note when the job of the note writes last.  For the path
    "2024", which [toPairs] puts first, the task kept in the note is what
    remains.  The other task is lost every time. *)
Lemma same_file_update_is_lost_witness :
  (let '(result, (w', _)) :=
     archiveTasks (Double.archiver Double.checked []) RefHost.World RefHost.perform
       [0; 1; 0; 1]%nat (Cases.keptAndRouted Cases.noteRule)
       (DiskFile (mkTFile "Note.md")) (Cases.noteOnDisk, []) in
   result = Ok tt
   /\ w' = RefHost.setVault
             (<["Note.md" :=
                  RefHost.File ["# Log"; "## Archived"; "- [x] routed to the note"]]>
                (RefHost.vault Cases.noteOnDisk)) Cases.noteOnDisk)
  /\ (let '(result, (w', _)) :=
        archiveTasks (Double.archiver Double.checked []) RefHost.World RefHost.perform
          [0; 1; 0; 1]%nat (Cases.keptAndRouted Cases.yearRule)
          (DiskFile (mkTFile "2024.md")) (Cases.yearOnDisk, []) in
      result = Ok tt
      /\ w' = RefHost.setVault
                (<["2024.md" :=
                     RefHost.File ["# Log"; "## Archived"; "- [x] kept in the note"]]>
                   (RefHost.vault Cases.yearOnDisk)) Cases.yearOnDisk)
  /\ (let '(result, (w', _)) :=
        archiveTasks (Double.archiver Double.checked []) RefHost.World RefHost.perform
          [1; 0; 1; 0]%nat (Cases.keptAndRouted Cases.noteRule)
          (DiskFile (mkTFile "Note.md")) (Cases.noteOnDisk, []) in
      result = Ok tt
      /\ w' = RefHost.setVault
                (<["Note.md" :=
                     RefHost.File ["# Log"; "## Archived"; "- [x] kept in the note"]]>
                   (RefHost.vault Cases.noteOnDisk)) Cases.noteOnDisk).
Proof.
  split; [|split].
  - exact (same_file_update_is_lost (Double.archiver Double.checked []) "Note"
             (Cases.keptAndRouted Cases.noteRule)
             ("current-file", [mkBlock "- [x] kept in the note" []])
             ("Note", [mkBlock "- [x] routed to the note" []])
             [0; 1; 0; 1]%nat Cases.noteOnDisk [] ["# Log"]
             eq_refl eq_refl eq_refl eq_refl (or_introl (conj eq_refl eq_refl)) eq_refl).
  - exact (same_file_update_is_lost (Double.archiver Double.checked []) "2024"
             (Cases.keptAndRouted Cases.yearRule)
             ("2024", [mkBlock "- [x] routed to the note" []])
             ("current-file", [mkBlock "- [x] kept in the note" []])
             [0; 1; 0; 1]%nat Cases.yearOnDisk [] ["# Log"]
             eq_refl eq_refl eq_refl eq_refl (or_intror (conj eq_refl eq_refl)) eq_refl).
  - exact (same_file_update_is_lost (Double.archiver Double.checked []) "Note"
             (Cases.keptAndRouted Cases.noteRule)
             ("current-file", [mkBlock "- [x] kept in the note" []])
             ("Note", [mkBlock "- [x] routed to the note" []])
             [1; 0; 1; 0]%nat Cases.noteOnDisk [] ["# Log"]
             eq_refl eq_refl eq_refl eq_refl (or_introl (conj eq_refl eq_refl)) eq_refl).
Defined.

Lemma archive_section_reused_witness :
  let '(root1, _, _) :=
    getArchiveSectionFromRoot (Double.archiver Double.checked [])
      (Double.parseLines logNote) in
  let '(root2, _, _) :=
    getArchiveSectionFromRoot (Double.archiver Double.checked []) root1 in
  root2 = root1.
Proof.
  pose proof (archive_section_reused (Double.archiver Double.checked [])
                (Double.parseLines logNote) eq_refl) as H.
  destruct (getArchiveSectionFromRoot _ (Double.parseLines logNote)) as [[root1 p1] a1].
  destruct (getArchiveSectionFromRoot _ root1) as [[root2 p2] a2]. apply H.
Defined.

Lemma archive_section_repeated_witness :
  let '(root1, _, _) :=
    getArchiveSectionFromRoot strictArchiver (Double.parseLines logNote) in
  let '(root2, _, _) := getArchiveSectionFromRoot strictArchiver root1 in
  map sec_text (sec_children root2) = [" Log"; " Archived"; " Archived"].
Proof.
  pose proof (archive_section_repeated strictArchiver (Double.parseLines logNote)
                eq_refl eq_refl eq_refl eq_refl) as H.
  destruct (getArchiveSectionFromRoot _ (Double.parseLines logNote)) as [[root1 p1] a1].
  destruct (getArchiveSectionFromRoot _ root1) as [[root2 p2] a2].
  rewrite H. reflexivity.
Defined.

Lemma archive_nothing_witness :
  archiveDeepTasksInActiveFile (Double.archiver Double.checked []) RefHost.World
    RefHost.perform [] EditorFile (Double.note ["# Log"; "- [ ] task A"], [])
  = (Ok "No tasks to archive",
     (Double.note ["# Log"; "- [ ] task A"],
      [Performed (readLines EditorFile) true;
       Performed (writeLines EditorFile ["# Log"; "- [ ] task A"]) true])).
Proof.
  exact (archive_nothing (Double.archiver Double.checked []) RefHost.perform []
           EditorFile deepExtractBlocks (Double.note ["# Log"; "- [ ] task A"], [])
           ["# Log"; "- [ ] task A"] (Double.note ["# Log"; "- [ ] task A"])
           (Double.note ["# Log"; "- [ ] task A"])
           (Double.parseLines ["# Log"; "- [ ] task A"])
           eq_refl eq_refl eq_refl).
Defined.

Lemma archiveSection_in_file_witness :
  snd (snd (run RefHost.perform
              (archiveSection (Double.archiver Double.checked []) EditorFile
                 (Some project))
              (Double.note logNote, [])))
  = [Performed (readLines EditorFile) true;
     Performed (writeLines EditorFile
                  ["# Log"; "- [ ] task A"; "- [x] task B"; "## Archived";
                   "### Project"; "#### Plan"; "##### Steps"]) true].
Proof.
  destruct (archiveSection_in_file (Double.archiver Double.checked []) RefHost.perform
              EditorFile project (Double.note logNote, []) logNote (Double.note logNote)
              eq_refl eq_refl) as (tree'' & Hcb & Hrun).
  rewrite Hrun. injection Hcb as <-. reflexivity.
Defined.
